(** * ADX pipeline of [adxapp/utils.py]

    A shallow embedding of [wilder_sum_excel_style], [detect_ohlc_columns]
    and [calculate_adx] (revision 20251203183542 of [adxapp/utils.py]) and
    the properties of the indicator columns they compute.

    Numbers.  The program computes on IEEE binary64 values.  The embedding
    keeps the three kinds of value the control flow of the program
    distinguishes -- not-a-number, the two infinities, finite numbers -- and
    idealises the finite ones as exact rationals ([Qc]): rounding error,
    overflow and the sign of zero are not modelled.

    Frames.  A pandas [DataFrame] is an ordered list of labelled columns over
    a default [RangeIndex]; a column has a numeric dtype or dtype [object].
    Frames live in a heap of objects so that the copy taken by
    [calculate_adx], the frames it allocates and the in-place column
    assignments are explicit.  Headers are strings, lowered on the ASCII
    letters.  pandas' treatment of frames with repeated labels is not
    modelled: [calculate_adx] stops with [Unmodelled] when the renaming
    produces one.

    Library functions.  [pd.to_numeric] on text and [str] of a float are
    parameters of [calculate_adx]. *)

From Stdlib Require Import QArith Qcanon Qround Qabs Field Lia Ascii.
From stdpp Require Import base numbers list strings sets.

Set Default Proof Using "Type".

(* ================================================================= *)
(** ** Floating-point values *)

Module Float.

Inductive float64 : Type :=
| NaN
| Inf (neg : bool)
| Fin (q : Qc).

#[global] Instance float64_inhabited : Inhabited float64 := populate NaN.

Definition of_Z (z : Z) : float64 := Fin (Q2Qc (inject_Z z)).
Definition of_nat (n : nat) : float64 := of_Z (Z.of_nat n).

Definition isnan (x : float64) : bool :=
  match x with NaN => true | _ => false end.


Definition isfinite (x : float64) : bool :=
  match x with Fin _ => true | _ => false end.

Definition Qc_is_zero (q : Qc) : bool := Qc_eq_bool q 0%Qc.
Definition Qc_ltb (p q : Qc) : bool :=
  match (p ?= q)%Qc with Lt => true | _ => false end.
Definition Qc_is_neg (q : Qc) : bool := Qc_ltb q 0%Qc.

Definition add (x y : float64) : float64 :=
  match x, y with
  | NaN, _ | _, NaN => NaN
  | Inf s, Inf t => if Bool.eqb s t then Inf s else NaN
  | Inf s, Fin _ => Inf s
  | Fin _, Inf t => Inf t
  | Fin p, Fin q => Fin (p + q)%Qc
  end.

Definition sub (x y : float64) : float64 :=
  match x, y with
  | NaN, _ | _, NaN => NaN
  | Inf s, Inf t => if Bool.eqb s t then NaN else Inf s
  | Inf s, Fin _ => Inf s
  | Fin _, Inf t => Inf (negb t)
  | Fin p, Fin q => Fin (p - q)%Qc
  end.

Definition mul (x y : float64) : float64 :=
  match x, y with
  | NaN, _ | _, NaN => NaN
  | Inf s, Inf t => Inf (xorb s t)
  | Inf s, Fin q | Fin q, Inf s =>
      if Qc_is_zero q then NaN else Inf (xorb s (Qc_is_neg q))
  | Fin p, Fin q => Fin (p * q)%Qc
  end.

(** numpy division: a finite nonzero value over zero is an infinity, zero
    over zero is not a number; no exception is raised. *)
Definition div (x y : float64) : float64 :=
  match x, y with
  | NaN, _ | _, NaN => NaN
  | Inf _, Inf _ => NaN
  | Inf s, Fin q => Inf (xorb s (Qc_is_neg q))
  | Fin _, Inf _ => Fin 0%Qc
  | Fin p, Fin q =>
      if Qc_is_zero q
      then (if Qc_is_zero p then NaN else Inf (Qc_is_neg p))
      else Fin (p / q)%Qc
  end.

Definition Qc_abs (q : Qc) : Qc := if Qc_is_neg q then (- q)%Qc else q.

Definition abs (x : float64) : float64 :=
  match x with
  | NaN => NaN
  | Inf _ => Inf false
  | Fin q => Fin (Qc_abs q)
  end.

(** [x > y]; every comparison with not-a-number is false. *)
Definition gt (x y : float64) : bool :=
  match x, y with
  | NaN, _ | _, NaN => false
  | Inf s, Inf t => negb s && t
  | Inf s, Fin _ => negb s
  | Fin _, Inf t => t
  | Fin p, Fin q => Qc_ltb q p
  end.

(** The larger of two values, skipping not-a-number (pandas reductions
    run with [skipna=True]). *)
Definition nanmax2 (x y : float64) : float64 :=
  match x, y with
  | NaN, _ => y
  | _, NaN => x
  | _, _ => if gt y x then y else x
  end.

(** [numpy.round(x, 6)]: scale, round half to even, scale back. *)
Definition million : Q := inject_Z 1000000.

Definition rint (q : Q) : Z :=
  let f := Qfloor q in
  match (q - inject_Z f ?= 1 # 2)%Q with
  | Lt => f
  | Gt => (f + 1)%Z
  | Eq => if Z.even f then f else (f + 1)%Z
  end.

Definition round6 (x : float64) : float64 :=
  match x with
  | Fin q => Fin (Q2Qc (inject_Z (rint (this q * million)) / million))
  | _ => x
  end.

End Float.

Export Float.

(* ================================================================= *)
(** ** Series: the values of a float column, by position *)

Module Series.

Abbreviation series := (list float64) (only parsing).

(** Elementwise binary operation on two columns of one frame. *)
Definition map2 (f : float64 -> float64 -> float64) (a b : series) : series :=
  zip_with f a b.

(** [s.shift(1)] *)
Definition shift1 (s : series) : series :=
  match s with
  | [] => []
  | _ :: _ => NaN :: removelast s
  end.

(** [s.fillna(0)] *)
Definition fillna0 (s : series) : series :=
  (fun x => if isnan x then Fin 0%Qc else x) <$> s.

(** [s.replace([np.inf, -np.inf, np.nan], 0)] *)
Definition replace_nonfinite0 (s : series) : series :=
  (fun x => if isfinite x then x else Fin 0%Qc) <$> s.

(** [arr[a:b]] for [a <= b] *)
Definition slice (a b : nat) (s : series) : series := take (b - a) (drop a s).

(** [np.nansum] *)
Definition nansum (s : series) : float64 :=
  foldl (fun acc x => if isnan x then acc else add acc x) (Fin 0%Qc) s.

(** [Series.mean()], which skips not-a-number entries. *)
Definition mean (s : series) : float64 :=
  let xs := filter (fun x => isnan x = false) s in
  match xs with
  | [] => NaN
  | _ => div (foldl add (Fin 0%Qc) xs) (of_nat (length xs))
  end.

(** [df[[a, b, c]].max(axis=1)] *)
Definition rowmax3 (a b c : series) : series :=
  zip_with (fun xy z => nanmax2 (nanmax2 xy.1 xy.2) z) (zip a b) c.

(** [np.where(c1 & c2, x, 0.0)] with the two conditions of a [DM] column. *)
Definition dm_where (move other : series) : series :=
  zip_with (fun m o => if gt m o && gt m (Fin 0%Qc) then m else Fin 0%Qc)
           move other.

(** Assignment of not-a-number to row 0, a no-op on an empty column. *)
Definition blank_first (s : series) : series := <[0 := NaN]> s.

Definition round_series (s : series) : series := round6 <$> s.

End Series.

Export Series.

(* ================================================================= *)
(** ** [wilder_sum_excel_style] *)

Definition wilder_step (n : nat) (arr : series) (result : series) (i : nat)
  : series :=
  let prev := result !!! (i - 1) in
  if isnan prev then <[i := NaN]> result
  else <[i := add (sub prev (div prev (of_nat n))) (arr !!! i)]> result.

Definition wilder_sum_excel_style (ser : series) (n : nat) : series :=
  let result := replicate (length ser) NaN in
  if decide (length ser ≤ n) then result
  else
    let arr := ser in
    let initial_sum := nansum (slice 1 (n + 1) arr) in
    let result := <[n := initial_sum]> result in
    foldl (wilder_step n arr) result (seq (n + 1) (length arr - (n + 1))).

(* ================================================================= *)
(** ** [adx_from_dx]: section 4 of [calculate_adx], the ADX column *)

Definition adx_step (N : nat) (dx : series) (adx : series) (i : nat) : series :=
  let prev := adx !!! (i - 1) in
  <[i := div (add (mul prev (of_nat (N - 1))) (dx !!! i)) (of_nat N)]> adx.

Definition adx_from_dx (N : nat) (len : nat) (dx : series) : series :=
  let adx := replicate len NaN in
  let start := N in
  let end_ := 2 * N - 1 in
  if decide (end_ < len) then
    let adx := <[end_ := mean (slice start (end_ + 1) dx)]> adx in
    foldl (adx_step N dx) adx (seq (end_ + 1) (len - (end_ + 1)))
  else adx.

(* ================================================================= *)
(** ** Header strings and [detect_ohlc_columns] *)

Module Header.

(** [str.lower], on the ASCII letters. *)
Definition lower_ascii (c : ascii) : ascii :=
  let n := nat_of_ascii c in
  if (65 <=? n)%nat && (n <=? 90)%nat then ascii_of_nat (n + 32) else c.

Fixpoint lower (s : string) : string :=
  match s with
  | EmptyString => EmptyString
  | String c s' => String (lower_ascii c) (lower s')
  end.

(** [key in s] for strings: [key] occurs in [s] as a substring. *)
Fixpoint contains (key s : string) : bool :=
  String.prefix key s
  || match s with
     | EmptyString => false
     | String _ s' => contains key s'
     end.

(** [sep.join(l)] *)
Fixpoint join (sep : string) (l : list string) : string :=
  match l with
  | [] => EmptyString
  | [x] => x
  | x :: l' => (x ++ sep ++ join sep l')%string
  end.

End Header.

(** A Python [dict] with string keys: insertion-ordered, an assignment to a
    key already present keeps its position and replaces its value. *)
Module Dict.

Abbreviation dict V := (list (string * V)) (only parsing).

Fixpoint set {V} (d : dict V) (k : string) (v : V) : dict V :=
  match d with
  | [] => [(k, v)]
  | (k', v') :: d' =>
      if String.eqb k' k then (k', v) :: d' else (k', v') :: set d' k v
  end.

Fixpoint get {V} (d : dict V) (k : string) : option V :=
  match d with
  | [] => None
  | (k', v') :: d' => if String.eqb k' k then Some v' else get d' k
  end.

Definition mem {V} (d : dict V) (k : string) : bool :=
  match get d k with Some _ => true | None => false end.

Definition keys {V} (d : dict V) : list string := d.*1.
Definition values {V} (d : dict V) : list V := d.*2.

(** [{k: v for (k, v) in l}] and dict displays *)
Definition of_list {V} (l : list (string * V)) : dict V :=
  foldl (fun d kv => set d kv.1 kv.2) [] l.

End Dict.

Section detect.

Import Header.

(** [{c.lower(): c for c in df.columns}] *)
Definition lower_index (columns : list string) : Dict.dict string :=
  Dict.of_list ((fun c => (lower c, c)) <$> columns).

Definition candidates : Dict.dict (list string) :=
  Dict.of_list
    [("open", ["open"; "o"]); ("high", ["high"; "h"]);
     ("low", ["low"; "l"]); ("close", ["close"; "c"])]%string.

(** [for opt in opts: if opt in lower: found = lower[opt]; break] *)
Fixpoint first_option (lower : Dict.dict string) (opts : list string)
  : option string :=
  match opts with
  | [] => None
  | opt :: opts' =>
      if Dict.mem lower opt then Dict.get lower opt
      else first_option lower opts'
  end.

(** [for name_lower, orig in lower.items(): if key in name_lower: ...] *)
Fixpoint first_substring (key : string) (items : list (string * string))
  : option string :=
  match items with
  | [] => None
  | (name_lower, orig) :: items' =>
      if contains key name_lower then Some orig
      else first_substring key items'
  end.

(** Python truth value of [found]: [None] and the empty string are false. *)
Definition truthy (found : option string) : bool :=
  match found with
  | None => false
  | Some s => negb (String.eqb s "")
  end.

Definition detect_key (lower : Dict.dict string) (key : string)
           (opts : list string) : option string :=
  let found := first_option lower opts in
  if truthy found then found
  else match first_substring key lower with
       | Some orig => Some orig
       | None => found
       end.

Definition detect_ohlc_columns (columns : list string)
  : Dict.dict (option string) :=
  let lower := lower_index columns in
  foldl (fun mapping ko => Dict.set mapping ko.1 (detect_key lower ko.1 ko.2))
        [] candidates.

(** [[k for k, v in ohlc_map.items() if v is None]] *)
Definition missing_keys (ohlc_map : Dict.dict (option string)) : list string :=
  (filter (fun kv => kv.2 = None) ohlc_map).*1.

End detect.

(* ================================================================= *)
(** ** Frames, exceptions and the heap of frame objects *)

(** A cell of an [object] column holds a Python float or a string. *)
Inductive cell : Type :=
| CFloat (x : float64)
| CStr (s : string).

(** A column has a numeric dtype ([FloatCol]) or dtype [object]. *)
Inductive column : Type :=
| FloatCol (v : series)
| ObjCol (v : list cell).

Definition col_length (c : column) : nat :=
  match c with
  | FloatCol v => length v
  | ObjCol v => length v
  end.

(** [nrows] is [len(df)]; [cols] are the labelled columns in header order. *)
Record frame : Type := Frame { nrows : nat; cols : Dict.dict column }.

Definition labels (f : frame) : list string := Dict.keys (cols f).

(** [Unmodelled] marks the places where the embedding stops: a frame with
    repeated labels, arithmetic on an [object] column, a dangling
    reference. *)
Inductive exn : Type :=
| ValueError (msg : string)
| KeyError (label : string)
| IndexError
| Unmodelled.

(** State and exceptions; the state reached when an exception is raised is
    kept, as the objects mutated so far are in Python. *)
Definition M (S A : Type) : Type := S -> (exn + A) * S.

#[global] Instance M_ret {S} : MRet (M S) := fun A a s => (inr a, s).

#[global] Instance M_bind {S} : MBind (M S) := fun A B k m s =>
  match m s with
  | (inl e, s') => (inl e, s')
  | (inr a, s') => k a s'
  end.

Definition raise {S A} (e : exn) : M S A := fun s => (inl e, s).

Abbreviation loc := nat (only parsing).
Abbreviation heap := (list frame) (only parsing).

Definition alloc (f : frame) : M heap loc :=
  fun h => (inr (length h), h ++ [f]).

Definition load (l : loc) : M heap frame :=
  fun h => match h !! l with
           | Some f => (inr f, h)
           | None => (inl Unmodelled, h)
           end.

(** Run a computation on the frame object at [l], in place. *)
Definition on_frame {A} (l : loc) (m : M frame A) : M heap A :=
  fun h => match h !! l with
           | Some f => let '(r, f') := m f in (r, <[l := f']> h)
           | None => (inl Unmodelled, h)
           end.

(** [df[name]] *)
Definition getitem (name : string) : M frame column :=
  fun f => match Dict.get (cols f) name with
           | Some c => (inr c, f)
           | None => (inl (KeyError name), f)
           end.

Definition get_float (name : string) : M frame series :=
  c ← getitem name;
  match c with
  | FloatCol v => mret v
  | ObjCol _ => raise Unmodelled
  end.

(** [df[name] = c] *)
Definition setitem (name : string) (c : column) : M frame unit :=
  fun f => (inr tt, Frame (nrows f) (Dict.set (cols f) name c)).

Definition set_float (name : string) (v : series) : M frame unit :=
  setitem name (FloatCol v).

(** [df[name] = op(df[a], df[b])] *)
Definition assign2 (name : string) (op : series -> series -> series)
           (a b : string) : M frame unit :=
  x ← get_float a; y ← get_float b; set_float name (op x y).

(** [df[name] = op(df[a])] *)
Definition assign1 (name : string) (op : series -> series) (a : string)
  : M frame unit :=
  x ← get_float a; set_float name (op x).

(** [df.rename(columns=m)], the labels of the new frame. *)
Definition rename_cols (m : Dict.dict string) (cs : Dict.dict column)
  : Dict.dict column :=
  (fun kc => (default kc.1 (Dict.get m kc.1), kc.2)) <$> cs.

Definition is_float_col (c : column) : bool :=
  match c with FloatCol _ => true | ObjCol _ => false end.

(** [df[num_cols] = df[num_cols].round(6)] over the numeric columns. *)
Definition round_numeric (cs : Dict.dict column) : Dict.dict column :=
  (fun kc => (kc.1, match kc.2 with
                    | FloatCol v => FloatCol (round_series v)
                    | ObjCol v => ObjCol v
                    end)) <$> cs.

(** [[c for c in final if c in df.columns]] and [df[present]] *)
Definition select (final : list string) (cs : Dict.dict column)
  : Dict.dict column :=
  omap (fun c => match Dict.get cs c with
                 | Some col => Some (c, col)
                 | None => None
                 end) final.

(* ================================================================= *)
(** ** [calculate_adx] *)

Definition N : nat := 14.

Definition abs_diff (a b : series) : series := abs <$> map2 sub a b.

(** [(a / b) * 100] *)
Definition ratio100 (a b : series) : series :=
  (fun x => mul x (of_Z 100)) <$> map2 div a b.

Definition len : M frame nat := fun f => (inr (nrows f), f).

(** Lines 78-100: the lagged columns, [TR], [+DM 1] and [-DM 1]. *)
Definition true_range_and_dm : M frame unit :=
  assign1 "Prev_Close" shift1 "Close";;
  assign1 "Prev_High" shift1 "High";;
  assign1 "Prev_Low" shift1 "Low";;
  assign2 "TR1" (map2 sub) "High" "Low";;
  assign2 "TR2" abs_diff "High" "Prev_Close";;
  assign2 "TR3" abs_diff "Low" "Prev_Close";;
  (a ← get_float "TR1"; b ← get_float "TR2"; c ← get_float "TR3";
   set_float "TR" (rowmax3 a b c));;
  n ← len;
  (* [df.index[0]] *)
  (if decide (n = 0) then raise IndexError else mret tt);;
  assign1 "TR" blank_first "TR";;
  assign2 "UpMove" (map2 sub) "High" "Prev_High";;
  assign2 "DownMove" (map2 sub) "Prev_Low" "Low";;
  assign2 "+DM 1" dm_where "UpMove" "DownMove";;
  assign2 "-DM 1" dm_where "DownMove" "UpMove";;
  if decide (1 ≤ n) then
    assign1 "+DM 1" blank_first "+DM 1";;
    assign1 "-DM 1" blank_first "-DM 1"
  else mret tt.

(** Lines 104-106. *)
Definition smoothed : M frame unit :=
  assign1 "TR14" (fun s => wilder_sum_excel_style (fillna0 s) N) "TR";;
  assign1 "+DM14" (fun s => wilder_sum_excel_style (fillna0 s) N) "+DM 1";;
  assign1 "-DM14" (fun s => wilder_sum_excel_style (fillna0 s) N) "-DM 1".

(** Lines 109-116. *)
Definition di_and_dx : M frame unit :=
  assign2 "+DI14" ratio100 "+DM14" "TR14";;
  assign2 "-DI14" ratio100 "-DM14" "TR14";;
  assign2 "DI 14 Diff" abs_diff "+DI14" "-DI14";;
  assign2 "DI 14 Sum" (map2 add) "+DI14" "-DI14";;
  assign2 "DX" ratio100 "DI 14 Diff" "DI 14 Sum";;
  assign1 "DX" replace_nonfinite0 "DX".

(** Lines 119-134. *)
Definition adx_column : M frame unit :=
  n ← len;
  dx ← get_float "DX";
  set_float "ADX" (adx_from_dx N n dx).

(** Lines 78-134: every derived column, before the final rounding. *)
Definition indicators : M frame unit :=
  true_range_and_dm;; smoothed;; di_and_dx;; adx_column.

Definition output_columns : list string :=
  [ "Open"; "High"; "Low"; "Close";
    "TR"; "+DM 1"; "-DM 1";
    "TR14"; "+DM14"; "-DM14";
    "+DI14"; "-DI14";
    "DI 14 Diff"; "DI 14 Sum";
    "DX"; "ADX" ]%string.

Definition missing_message (missing : list string) : string :=
  ("Missing OHLC columns in input CSV: " ++ Header.join ", " missing)%string.

(** The [columns=] argument of [df.rename]: a dict display keyed by the
    detected labels. *)
Definition rename_map (ohlc_map : Dict.dict (option string)) : Dict.dict string :=
  Dict.of_list
    (omap (fun kt => match Dict.get ohlc_map kt.1 with
                     | Some (Some orig) => Some (orig, kt.2)
                     | _ => None
                     end)
          [("open", "Open"); ("high", "High");
           ("low", "Low"); ("close", "Close")]%string).

Section calculate_adx.

(** The two library functions the program applies to text: the reading of
    a string as a number by [pd.to_numeric] ([None] when it is not one)
    and [str] of a float. *)
Variable parse_float : string -> option float64.
Variable str_of_float : float64 -> string.

(** [pd.to_numeric(col, errors='coerce')] *)
Definition to_numeric (c : column) : series :=
  match c with
  | FloatCol v => v
  | ObjCol v =>
      (fun x => match x with
                | CFloat y => y
                | CStr s => default NaN (parse_float s)
                end) <$> v
  end.

(** [col.astype(str)] *)
Definition astype_str (c : column) : column :=
  match c with
  | FloatCol v => ObjCol ((fun y => CStr (str_of_float y)) <$> v)
  | ObjCol v =>
      ObjCol ((fun x => match x with
                        | CFloat y => CStr (str_of_float y)
                        | CStr s => CStr s
                        end) <$> v)
  end.

(** Lines 74-76. *)
Definition coerce_ohlc : M frame unit :=
  o ← getitem "Open"; h ← getitem "High";
  l ← getitem "Low"; c ← getitem "Close";
  set_float "Open" (to_numeric o);;
  set_float "High" (to_numeric h);;
  set_float "Low" (to_numeric l);;
  set_float "Close" (to_numeric c).

(** Lines 140-156; returns [final]. *)
Definition finalize (date_col : option string) : M frame (list string) :=
  (fun f => (inr tt, Frame (nrows f) (round_numeric (cols f))));;
  match date_col with
  | Some d =>
      c ← getitem d; setitem d (astype_str c);; mret (d :: output_columns)
  | None => mret output_columns
  end.

Definition calculate_adx (input_df : loc) : M heap loc :=
  (* df = input_df.copy() *)
  f0 ← load input_df;
  df ← alloc f0;
  f ← load df;
  let columns := labels f in
  let ohlc_map := detect_ohlc_columns columns in
  if bool_decide (None ∈ Dict.values ohlc_map) then
    raise (ValueError (missing_message (missing_keys ohlc_map)))
  else
    first_col ← match columns with
                | c :: _ => mret c
                | [] => raise IndexError
                end;
    let date_col :=
      if bool_decide (Some first_col ∈ Dict.values ohlc_map) then None
      else Some first_col in
    (* df = df.rename(...): a new frame object *)
    f ← load df;
    df ← alloc (Frame (nrows f) (rename_cols (rename_map ohlc_map) (cols f)));
    f ← load df;
    if bool_decide (NoDup (labels f)) then
      on_frame df coerce_ohlc;;
      on_frame df indicators;;
      final ← on_frame df (finalize date_col);
      (* df[present]: a new frame object *)
      f ← load df;
      alloc (Frame (nrows f) (select final (cols f)))
    else raise Unmodelled.

End calculate_adx.

(* ================================================================= *)
(** * Properties *)

(** ** Arithmetic on [float64] *)

#[global] Instance float64_eq_dec : EqDecision float64.
Proof. solve_decision. Defined.

#[global] Instance cell_eq_dec : EqDecision cell.
Proof. solve_decision. Defined.

#[global] Instance column_eq_dec : EqDecision column.
Proof. solve_decision. Defined.

#[global] Instance frame_eq_dec : EqDecision frame.
Proof. solve_decision. Defined.

#[global] Instance exn_eq_dec : EqDecision exn.
Proof. solve_decision. Defined.

(** Equations between rationals in canonical form are proved on their
    underlying fractions. *)
Ltac qc_field :=
  apply Qc_is_canon;
  unfold Qcdiv, Qcminus, Qcinv, Qcopp, Qcplus, Qcmult; cbn [this Q2Qc];
  rewrite ?Qred_correct; try field.

(** Closed facts are decided by evaluation. *)
Ltac by_eval := cbv zeta; apply (bool_decide_unpack _); vm_compute; exact I.

Lemma isnan_true x : isnan x = true <-> x = NaN.
Proof. destruct x; simpl; split; congruence. Qed.

Lemma isnan_false_iff x : isnan x = false <-> x <> NaN.
Proof. destruct x; simpl; split; congruence. Qed.

Lemma sub_nan_l y : sub NaN y = NaN.
Proof. reflexivity. Qed.

Lemma add_nan_l y : add NaN y = NaN.
Proof. reflexivity. Qed.

Lemma add_nan_r x : add x NaN = NaN.
Proof. by destruct x. Qed.


Lemma div_nan_l y : div NaN y = NaN.
Proof. reflexivity. Qed.

Lemma div_nan_r x : div x NaN = NaN.
Proof. by destruct x. Qed.

Lemma mul_nan_l y : mul NaN y = NaN.
Proof. reflexivity. Qed.

Lemma abs_nan_iff x : abs x = NaN <-> x = NaN.
Proof. destruct x; simpl; split; congruence. Qed.


Lemma Qc_is_zero_true q : Qc_is_zero q = true <-> q = 0%Qc.
Proof.
  unfold Qc_is_zero. split; [apply Qc_eq_bool_correct|intros ->].
  unfold Qc_eq_bool. by destruct (Qcanon.Qc_eq_dec 0%Qc 0%Qc).
Qed.

Lemma Qc_ltb_lt p q : Qc_ltb p q = true <-> (p < q)%Qc.
Proof.
  unfold Qc_ltb. rewrite Qclt_alt. destruct (p ?= q)%Qc; split; congruence.
Qed.

Lemma Qc_ltb_ge p q : Qc_ltb p q = false <-> (q <= p)%Qc.
Proof.
  pose proof (Qc_ltb_lt p q) as H. pose proof (Qcnot_lt_le p q) as H'.
  destruct (Qc_ltb p q); split; intros; try done.
  - exfalso. apply (Qcle_not_lt q p); [done|]. by apply H.
  - apply H'. intros Hlt. apply H in Hlt. done.
Qed.

Lemma gt_asym x y : gt x y = true -> gt y x = false.
Proof.
  destruct x as [|s|p], y as [|t|q]; simpl; try done.
  - destruct s, t; done.
  - by destruct s.
  - by intros ->.
  - rewrite Qc_ltb_lt, Qc_ltb_ge. apply Qclt_le_weak.
Qed.

Lemma gt_irrefl x : gt x x = false.
Proof.
  destruct x as [|s|p]; simpl; try done.
  - by destruct s.
  - apply Qc_ltb_ge, Qcle_refl.
Qed.

(** ** Lookup in the elementwise operations *)

Lemma length_map2 f a b : length a = length b -> length (map2 f a b) = length a.
Proof. intros. unfold map2. by rewrite length_zip_with_l_eq. Qed.

Lemma lookup_map2 f a b i x y :
  a !! i = Some x -> b !! i = Some y -> map2 f a b !! i = Some (f x y).
Proof. intros Ha Hb. unfold map2. by rewrite lookup_zip_with, Ha, Hb. Qed.

Lemma length_shift1 s : length (shift1 s) = length s.
Proof.
  destruct s as [|x s]; [done|]. unfold shift1.
  rewrite removelast_firstn_len. cbn [length]. rewrite length_take. simpl. lia.
Qed.

Lemma lookup_shift1_0 s : s <> [] -> shift1 s !! 0 = Some NaN.
Proof. by destruct s. Qed.

Lemma lookup_shift1_S s i : S i < length s -> shift1 s !! S i = s !! i.
Proof.
  intros Hi. destruct s as [|x s]; [simpl in Hi; lia|].
  unfold shift1. rewrite removelast_firstn_len. cbn [lookup list_lookup].
  change (take (Init.Nat.pred (length (x :: s))) (x :: s) !! i = (x :: s) !! i).
  apply lookup_take_lt. simpl in *. lia.
Qed.

Lemma length_blank_first s : length (blank_first s) = length s.
Proof. apply length_insert. Qed.

Lemma lookup_blank_first_0 s : s <> [] -> blank_first s !! 0 = Some NaN.
Proof. by destruct s. Qed.

Lemma lookup_blank_first_S s i : blank_first s !! S i = s !! S i.
Proof. by destruct s. Qed.

Lemma length_fillna0 s : length (fillna0 s) = length s.
Proof. apply length_fmap. Qed.

Lemma lookup_fillna0 s i :
  fillna0 s !! i = (fun x => if isnan x then Fin 0%Qc else x) <$> s !! i.
Proof. apply list_lookup_fmap. Qed.

(** ** Loops that fill a column from left to right *)

Lemma foldl_ext {A B} (f g : A -> B -> A) (l : list B) (a : A) :
  (forall x y, f x y = g x y) -> foldl f a l = foldl g a l.
Proof.
  intros Hfg. revert a. induction l as [|y l IH]; intros a; simpl; [done|].
  by rewrite Hfg, IH.
Qed.

(** Both loops of the program write position [i] from position [i - 1] of
    the column under construction. *)
Definition scan (g : float64 -> nat -> float64) (res : list float64) (i : nat)
  : list float64 :=
  <[i := g (res !!! (i - 1)) i]> res.

Lemma scan_loop g init a k :
  0 < a ->
  let res := foldl (scan g) init (seq a k) in
  length res = length init
  /\ (forall j, j < a \/ a + k <= j -> res !! j = init !! j)
  /\ (forall j, a <= j < a + k -> j < length init ->
                res !! j = Some (g (res !!! (j - 1)) j)).
Proof.
  intros Ha. induction k as [|k IH]; cbv zeta.
  - simpl. split; [done|]. split; [done|]. intros; lia.
  - rewrite seq_S, foldl_snoc. cbv zeta in IH.
    destruct IH as (Hlen & Hout & Hin).
    set (res := foldl (scan g) init (seq a k)) in *.
    unfold scan. split; [by rewrite length_insert|]. split.
    + intros j Hj. rewrite list_lookup_insert_ne by lia. apply Hout. lia.
    + intros j Hj Hjl.
      destruct (decide (j = a + k)) as [->|Hne].
      * rewrite list_lookup_insert_eq by lia.
        by rewrite list_lookup_total_insert_ne by lia.
      * rewrite list_lookup_insert_ne by lia.
        rewrite list_lookup_total_insert_ne by lia.
        apply Hin; lia.
Qed.

(** ** [wilder_sum_excel_style] *)

(** One step of Wilder's recursion, [prev - prev / n + x]. *)
Definition wilder_next (n : nat) (prev x : float64) : float64 :=
  add (sub prev (div prev (of_nat n))) x.

Lemma wilder_step_scan n arr res i :
  wilder_step n arr res i = scan (fun prev j => wilder_next n prev (arr !!! j)) res i.
Proof.
  unfold wilder_step, scan, wilder_next.
  destruct (res !!! (i - 1)); done.
Qed.

Lemma wilder_length ser n : length (wilder_sum_excel_style ser n) = length ser.
Proof.
  unfold wilder_sum_excel_style. case_decide; [by rewrite length_replicate|].
  rewrite (foldl_ext _ _ _ _ (wilder_step_scan n ser)).
  destruct (scan_loop (fun prev j => wilder_next n prev (ser !!! j))
              (<[n := nansum (slice 1 (n + 1) ser)]> (replicate (length ser) NaN))
              (n + 1) (length ser - (n + 1))) as (-> & _); [lia|].
  by rewrite length_insert, length_replicate.
Qed.

Lemma wilder_short ser n i :
  length ser <= n -> i < length ser -> wilder_sum_excel_style ser n !! i = Some NaN.
Proof.
  intros Hn Hi. unfold wilder_sum_excel_style. rewrite decide_True by done.
  by apply lookup_replicate_2.
Qed.

Lemma wilder_before_seed ser n i :
  i < n -> i < length ser -> wilder_sum_excel_style ser n !! i = Some NaN.
Proof.
  intros Hi Hl. unfold wilder_sum_excel_style.
  case_decide; [by apply lookup_replicate_2|].
  rewrite (foldl_ext _ _ _ _ (wilder_step_scan n ser)).
  destruct (scan_loop (fun prev j => wilder_next n prev (ser !!! j))
              (<[n := nansum (slice 1 (n + 1) ser)]> (replicate (length ser) NaN))
              (n + 1) (length ser - (n + 1))) as (_ & Hout & _); [lia|].
  rewrite Hout by lia. rewrite list_lookup_insert_ne by lia. by apply lookup_replicate_2.
Qed.

Lemma wilder_seed ser n :
  n < length ser ->
  wilder_sum_excel_style ser n !! n = Some (nansum (slice 1 (n + 1) ser)).
Proof.
  intros Hl. unfold wilder_sum_excel_style. rewrite decide_False by lia.
  rewrite (foldl_ext _ _ _ _ (wilder_step_scan n ser)).
  destruct (scan_loop (fun prev j => wilder_next n prev (ser !!! j))
              (<[n := nansum (slice 1 (n + 1) ser)]> (replicate (length ser) NaN))
              (n + 1) (length ser - (n + 1))) as (_ & Hout & _); [lia|].
  rewrite Hout by lia. rewrite list_lookup_insert_eq; [done|]. by rewrite length_replicate.
Qed.

Lemma wilder_after_seed ser n i :
  n < i -> i < length ser ->
  wilder_sum_excel_style ser n !! i
  = Some (wilder_next n (wilder_sum_excel_style ser n !!! (i - 1)) (ser !!! i)).
Proof.
  intros Hi Hl. unfold wilder_sum_excel_style. rewrite decide_False by lia.
  rewrite (foldl_ext _ _ _ _ (wilder_step_scan n ser)).
  destruct (scan_loop (fun prev j => wilder_next n prev (ser !!! j))
              (<[n := nansum (slice 1 (n + 1) ser)]> (replicate (length ser) NaN))
              (n + 1) (length ser - (n + 1))) as (_ & _ & H); [lia|].
  apply H; [lia|]. by rewrite length_insert, length_replicate.
Qed.

(** ** [nansum] *)








Lemma slice_constant (R : list float64) a n x :
  (forall i, a <= i < a + n -> R !! i = Some x) -> slice a (a + n) R = replicate n x.
Proof.
  intros H. unfold slice. replace (a + n - a) with n by lia.
  apply list_eq. intros i. rewrite lookup_take, lookup_drop.
  case_decide.
  - rewrite H by lia. symmetry. by apply lookup_replicate_2.
  - symmetry. apply lookup_replicate_None. lia.
Qed.



(** ** The Wilder-smoothed columns (claims C1 and C2) *)

Lemma N_nonzero : Qc_is_zero (Q2Qc (inject_Z (Z.of_nat N))) = false.
Proof. by vm_compute. Qed.








(** ** [adx_from_dx] *)

(** One step of the ADX recursion, [(prev * (N - 1) + x) / N]. *)
Definition adx_next (n : nat) (prev x : float64) : float64 :=
  div (add (mul prev (of_nat (n - 1))) x) (of_nat n).

Lemma adx_step_scan n dx adx i :
  adx_step n dx adx i = scan (fun prev j => adx_next n prev (dx !!! j)) adx i.
Proof. reflexivity. Qed.


Lemma adx_before_seed n len dx i :
  i < 2 * n - 1 -> i < len -> adx_from_dx n len dx !! i = Some NaN.
Proof.
  intros Hi Hl. unfold adx_from_dx.
  case_decide; [|by apply lookup_replicate_2].
  rewrite (foldl_ext _ _ _ _ (adx_step_scan n dx)).
  destruct (scan_loop (fun prev j => adx_next n prev (dx !!! j))
              (<[2 * n - 1 := mean (slice n (2 * n - 1 + 1) dx)]> (replicate len NaN))
              (2 * n - 1 + 1) (len - (2 * n - 1 + 1))) as (_ & Hout & _); [lia|].
  rewrite Hout by lia. rewrite list_lookup_insert_ne by lia.
  by apply lookup_replicate_2.
Qed.

Lemma adx_short n len dx i :
  len <= 2 * n - 1 -> i < len -> adx_from_dx n len dx !! i = Some NaN.
Proof.
  intros Hn Hi. unfold adx_from_dx. rewrite decide_False by lia.
  by apply lookup_replicate_2.
Qed.

Lemma adx_seed n len dx :
  2 * n - 1 < len ->
  adx_from_dx n len dx !! (2 * n - 1) = Some (mean (slice n (2 * n - 1 + 1) dx)).
Proof.
  intros Hl. unfold adx_from_dx. rewrite decide_True by lia.
  rewrite (foldl_ext _ _ _ _ (adx_step_scan n dx)).
  destruct (scan_loop (fun prev j => adx_next n prev (dx !!! j))
              (<[2 * n - 1 := mean (slice n (2 * n - 1 + 1) dx)]> (replicate len NaN))
              (2 * n - 1 + 1) (len - (2 * n - 1 + 1))) as (_ & Hout & _); [lia|].
  rewrite Hout by lia. rewrite list_lookup_insert_eq; [done|].
  by rewrite length_replicate.
Qed.

Lemma adx_after_seed n len dx i :
  2 * n - 1 < i -> i < len ->
  adx_from_dx n len dx !! i
  = Some (adx_next n (adx_from_dx n len dx !!! (i - 1)) (dx !!! i)).
Proof.
  intros Hi Hl. unfold adx_from_dx. rewrite decide_True by lia.
  rewrite (foldl_ext _ _ _ _ (adx_step_scan n dx)).
  destruct (scan_loop (fun prev j => adx_next n prev (dx !!! j))
              (<[2 * n - 1 := mean (slice n (2 * n - 1 + 1) dx)]> (replicate len NaN))
              (2 * n - 1 + 1) (len - (2 * n - 1 + 1))) as (_ & _ & H); [lia|].
  apply H; [lia|]. by rewrite length_insert, length_replicate.
Qed.

(** The mean of a column without [NaN] entries is its sum over its length. *)
Lemma mean_no_nan s :
  s <> [] -> Forall (fun x => isnan x = false) s ->
  mean s = div (foldl add (Fin 0%Qc) s) (of_nat (length s)).
Proof.
  intros Hne Hs. unfold mean.
  assert (filter (fun x => isnan x = false) s = s) as ->.
  { induction Hs as [|x s Hx _ IH]; [done|].
    rewrite filter_cons_True by done. f_equal.
    destruct s; [done|]. by apply IH. }
  by destruct s.
Qed.

Lemma mean_constant (v : Qc) : mean (replicate N (Fin v)) = Fin v.
Proof.
  unfold mean, N, of_nat, of_Z.
  cbn [replicate filter list_filter isnan foldl add length].
  repeat (rewrite decide_True by done).
  cbn [foldl add length div].
  change (Qc_is_zero (Q2Qc (inject_Z (Z.of_nat 14)))) with false.
  cbn iota. f_equal. change (Z.of_nat 14) with 14%Z. qc_field.
Qed.

(** ** Dictionaries and frames *)

Lemma dict_get_set {V} (d : list (string * V)) (k q : string) (v : V) :
  Dict.get (Dict.set d k v) q
  = if String.eqb k q then Some v else Dict.get d q.
Proof.
  induction d as [|[k' v'] d IH]; simpl; [done|].
  destruct (String.eqb k' k) eqn:Hk; simpl.
  - apply String.eqb_eq in Hk as ->. by destruct (String.eqb k q).
  - rewrite IH. destruct (String.eqb k' q) eqn:Hq; [|done].
    apply String.eqb_eq in Hq as ->.
    rewrite String.eqb_sym in Hk. by rewrite Hk.
Qed.

Lemma dict_get_set_eq {V} (d : list (string * V)) (k : string) (v : V) :
  Dict.get (Dict.set d k v) k = Some v.
Proof. by rewrite dict_get_set, String.eqb_refl. Qed.

Lemma dict_get_set_ne {V} (d : list (string * V)) (k q : string) (v : V) :
  k <> q -> Dict.get (Dict.set d k v) q = Dict.get d q.
Proof.
  intros Hne. rewrite dict_get_set.
  by apply String.eqb_neq in Hne as ->.
Qed.

(** The values of a column of numeric dtype. *)
Definition float_col (f : frame) (name : string) : option (list float64) :=
  match Dict.get (cols f) name with
  | Some (FloatCol v) => Some v
  | _ => None
  end.

Lemma float_col_set_eq n d k v :
  float_col (Frame n (Dict.set d k (FloatCol v))) k = Some v.
Proof. unfold float_col. simpl. by rewrite dict_get_set_eq. Qed.

Lemma float_col_set_ne n d k q c :
  k <> q -> float_col (Frame n (Dict.set d k c)) q = float_col (Frame n d) q.
Proof. intros. unfold float_col. simpl. by rewrite dict_get_set_ne. Qed.

(** ** Running the frame computations *)

Lemma run_bind {S A B} (m : M S A) (k : A -> M S B) s a s' :
  m s = (inr a, s') -> (m ≫= k) s = k a s'.
Proof. intros Hm. unfold mbind, M_bind. by rewrite Hm. Qed.

Lemma run_bind_raise {S A B} (m : M S A) (k : A -> M S B) s e s' :
  m s = (inl e, s') -> (m ≫= k) s = (inl e, s').
Proof. intros Hm. unfold mbind, M_bind. by rewrite Hm. Qed.

Lemma get_float_ok f name v :
  float_col f name = Some v -> get_float name f = (inr v, f).
Proof.
  unfold float_col, get_float, getitem, mbind, M_bind. intros Hv.
  destruct (Dict.get (cols f) name) as [[w|w]|]; by simplify_eq.
Qed.

Lemma assign1_ok n d name op a x :
  float_col (Frame n d) a = Some x ->
  assign1 name op a (Frame n d)
  = (inr tt, Frame n (Dict.set d name (FloatCol (op x)))).
Proof.
  intros Hx. unfold assign1. by rewrite (run_bind _ _ _ _ _ (get_float_ok _ _ _ Hx)).
Qed.

Lemma assign2_ok n d name op a b x y :
  float_col (Frame n d) a = Some x ->
  float_col (Frame n d) b = Some y ->
  assign2 name op a b (Frame n d)
  = (inr tt, Frame n (Dict.set d name (FloatCol (op x y)))).
Proof.
  intros Hx Hy. unfold assign2.
  rewrite (run_bind _ _ _ _ _ (get_float_ok _ _ _ Hx)).
  by rewrite (run_bind _ _ _ _ _ (get_float_ok _ _ _ Hy)).
Qed.

(** ** The derived columns as functions of the coerced High, Low, Close

    Each definition names the expression that one assignment of
    [indicators] evaluates; [indicators_run] below shows that these are the
    columns the run leaves in the frame. *)

Section columns.

Variables (H L C : list float64) (n : nat).

Definition TR1_of := map2 sub H L.
Definition TR2_of := abs_diff H (shift1 C).
Definition TR3_of := abs_diff L (shift1 C).
Definition TR_of := blank_first (rowmax3 TR1_of TR2_of TR3_of).
Definition UpMove_of := map2 sub H (shift1 H).
Definition DownMove_of := map2 sub (shift1 L) L.
Definition plus_DM1_of := blank_first (dm_where UpMove_of DownMove_of).
Definition minus_DM1_of := blank_first (dm_where DownMove_of UpMove_of).
Definition TR14_of := wilder_sum_excel_style (fillna0 TR_of) N.
Definition plus_DM14_of := wilder_sum_excel_style (fillna0 plus_DM1_of) N.
Definition minus_DM14_of := wilder_sum_excel_style (fillna0 minus_DM1_of) N.
Definition plus_DI14_of := ratio100 plus_DM14_of TR14_of.
Definition minus_DI14_of := ratio100 minus_DM14_of TR14_of.
Definition DI_diff_of := abs_diff plus_DI14_of minus_DI14_of.
Definition DI_sum_of := map2 add plus_DI14_of minus_DI14_of.
Definition DX_raw_of := ratio100 DI_diff_of DI_sum_of.
Definition DX_of := replace_nonfinite0 DX_raw_of.
Definition ADX_of := adx_from_dx N n DX_of.

(** The columns of the frame after each block of [indicators]. *)
Definition tr_dm_cols (d : list (string * column)) : list (string * column) :=
  let d := Dict.set d "Prev_Close" (FloatCol (shift1 C)) in
  let d := Dict.set d "Prev_High" (FloatCol (shift1 H)) in
  let d := Dict.set d "Prev_Low" (FloatCol (shift1 L)) in
  let d := Dict.set d "TR1" (FloatCol TR1_of) in
  let d := Dict.set d "TR2" (FloatCol TR2_of) in
  let d := Dict.set d "TR3" (FloatCol TR3_of) in
  let d := Dict.set d "TR" (FloatCol (rowmax3 TR1_of TR2_of TR3_of)) in
  let d := Dict.set d "TR" (FloatCol TR_of) in
  let d := Dict.set d "UpMove" (FloatCol UpMove_of) in
  let d := Dict.set d "DownMove" (FloatCol DownMove_of) in
  let d := Dict.set d "+DM 1" (FloatCol (dm_where UpMove_of DownMove_of)) in
  let d := Dict.set d "-DM 1" (FloatCol (dm_where DownMove_of UpMove_of)) in
  let d := Dict.set d "+DM 1" (FloatCol plus_DM1_of) in
  Dict.set d "-DM 1" (FloatCol minus_DM1_of).

Definition smoothed_cols (d : list (string * column)) : list (string * column) :=
  let d := Dict.set d "TR14" (FloatCol TR14_of) in
  let d := Dict.set d "+DM14" (FloatCol plus_DM14_of) in
  Dict.set d "-DM14" (FloatCol minus_DM14_of).

Definition di_dx_cols (d : list (string * column)) : list (string * column) :=
  let d := Dict.set d "+DI14" (FloatCol plus_DI14_of) in
  let d := Dict.set d "-DI14" (FloatCol minus_DI14_of) in
  let d := Dict.set d "DI 14 Diff" (FloatCol DI_diff_of) in
  let d := Dict.set d "DI 14 Sum" (FloatCol DI_sum_of) in
  let d := Dict.set d "DX" (FloatCol DX_raw_of) in
  Dict.set d "DX" (FloatCol DX_of).

Definition indicator_cols (d : list (string * column)) : list (string * column) :=
  Dict.set (di_dx_cols (smoothed_cols (tr_dm_cols d))) "ADX" (FloatCol ADX_of).

End columns.

(** Reads a column of a frame whose columns are a stack of assignments. *)
Ltac read_col :=
  repeat first [ rewrite float_col_set_eq
               | rewrite float_col_set_ne by discriminate ];
  first [ reflexivity | eassumption ].

Ltac run_assign :=
  first [ erewrite (run_bind (assign1 _ _ _)); [|apply assign1_ok; read_col]
        | erewrite (run_bind (assign2 _ _ _ _));
          [|apply assign2_ok; read_col] ].

Lemma true_range_and_dm_run n d H L C :
  float_col (Frame n d) "High" = Some H ->
  float_col (Frame n d) "Low" = Some L ->
  float_col (Frame n d) "Close" = Some C ->
  n <> 0 ->
  true_range_and_dm (Frame n d) = (inr tt, Frame n (tr_dm_cols H L C d)).
Proof.
  intros HH HL HC Hn. unfold true_range_and_dm.
  do 6 run_assign.
  erewrite (run_bind (_ ≫= _)); cycle 1.
  { erewrite (run_bind (get_float _)); [|apply get_float_ok; read_col].
    erewrite (run_bind (get_float _)); [|apply get_float_ok; read_col].
    erewrite (run_bind (get_float _)); [|apply get_float_ok; read_col].
    reflexivity. }
  erewrite (run_bind len); [|reflexivity]. cbn [nrows cols].
  destruct (decide (n = 0)) as [|_]; [done|].
  erewrite (run_bind (mret tt)); [|reflexivity].
  do 5 run_assign.
  destruct (decide (1 <= n)) as [_|]; [|lia].
  run_assign. by erewrite assign1_ok by read_col.
Qed.

Lemma true_range_and_dm_empty d :
  (exists H, float_col (Frame 0 d) "High" = Some H) ->
  (exists L, float_col (Frame 0 d) "Low" = Some L) ->
  (exists C, float_col (Frame 0 d) "Close" = Some C) ->
  (true_range_and_dm (Frame 0 d)).1 = inl IndexError.
Proof.
  intros [H HH] [L HL] [C HC]. unfold true_range_and_dm.
  do 6 run_assign.
  erewrite (run_bind (_ ≫= _)); cycle 1.
  { erewrite (run_bind (get_float _)); [|apply get_float_ok; read_col].
    erewrite (run_bind (get_float _)); [|apply get_float_ok; read_col].
    erewrite (run_bind (get_float _)); [|apply get_float_ok; read_col].
    reflexivity. }
  erewrite (run_bind len); [|reflexivity]. cbn [nrows cols].
  reflexivity.
Qed.

Lemma smoothed_run n d H L C :
  float_col (Frame n d) "TR" = Some (TR_of H L C) ->
  float_col (Frame n d) "+DM 1" = Some (plus_DM1_of H L) ->
  float_col (Frame n d) "-DM 1" = Some (minus_DM1_of H L) ->
  smoothed (Frame n d) = (inr tt, Frame n (smoothed_cols H L C d)).
Proof.
  intros HT HP HM. unfold smoothed.
  do 2 run_assign. by erewrite assign1_ok by read_col.
Qed.

Lemma di_and_dx_run n d H L C :
  float_col (Frame n d) "TR14" = Some (TR14_of H L C) ->
  float_col (Frame n d) "+DM14" = Some (plus_DM14_of H L) ->
  float_col (Frame n d) "-DM14" = Some (minus_DM14_of H L) ->
  di_and_dx (Frame n d) = (inr tt, Frame n (di_dx_cols H L C d)).
Proof.
  intros HT HP HM. unfold di_and_dx.
  do 5 run_assign. by erewrite assign1_ok by read_col.
Qed.

Lemma indicators_run n d H L C :
  float_col (Frame n d) "High" = Some H ->
  float_col (Frame n d) "Low" = Some L ->
  float_col (Frame n d) "Close" = Some C ->
  n <> 0 ->
  indicators (Frame n d) = (inr tt, Frame n (indicator_cols H L C n d)).
Proof.
  intros HH HL HC Hn. unfold indicators.
  erewrite run_bind by (by apply true_range_and_dm_run).
  erewrite run_bind.
  2:{ apply smoothed_run; unfold tr_dm_cols; read_col. }
  erewrite run_bind.
  2:{ apply di_and_dx_run; unfold smoothed_cols; read_col. }
  unfold adx_column.
  erewrite (run_bind len); [|reflexivity]. cbn [nrows cols].
  erewrite (run_bind (get_float _));
    [|apply get_float_ok; unfold di_dx_cols; read_col].
  reflexivity.
Qed.

(** What [indicators] leaves in the frame. *)
Record has_indicators (f : frame) (H L C : list float64) : Prop := {
  ind_High : float_col f "High" = Some H;
  ind_Low : float_col f "Low" = Some L;
  ind_Close : float_col f "Close" = Some C;
  ind_TR : float_col f "TR" = Some (TR_of H L C);
  ind_UpMove : float_col f "UpMove" = Some (UpMove_of H);
  ind_DownMove : float_col f "DownMove" = Some (DownMove_of L);
  ind_plus_DM1 : float_col f "+DM 1" = Some (plus_DM1_of H L);
  ind_minus_DM1 : float_col f "-DM 1" = Some (minus_DM1_of H L);
  ind_TR14 : float_col f "TR14" = Some (TR14_of H L C);
  ind_plus_DM14 : float_col f "+DM14" = Some (plus_DM14_of H L);
  ind_minus_DM14 : float_col f "-DM14" = Some (minus_DM14_of H L);
  ind_plus_DI14 : float_col f "+DI14" = Some (plus_DI14_of H L C);
  ind_minus_DI14 : float_col f "-DI14" = Some (minus_DI14_of H L C);
  ind_DI_diff : float_col f "DI 14 Diff" = Some (DI_diff_of H L C);
  ind_DI_sum : float_col f "DI 14 Sum" = Some (DI_sum_of H L C);
  ind_DX : float_col f "DX" = Some (DX_of H L C);
  ind_ADX : float_col f "ADX" = Some (ADX_of H L C (nrows f));
}.

Lemma indicator_cols_has n d H L C :
  float_col (Frame n d) "High" = Some H ->
  float_col (Frame n d) "Low" = Some L ->
  float_col (Frame n d) "Close" = Some C ->
  has_indicators (Frame n (indicator_cols H L C n d)) H L C.
Proof.
  intros HH HL HC.
  split; unfold indicator_cols, di_dx_cols, smoothed_cols, tr_dm_cols;
    cbn [nrows]; read_col.
Qed.

(** [indicators] returns on every frame with at least one row whose High,
    Low and Close columns are numeric, and leaves the derived columns in
    it. *)
Lemma indicators_ok f H L C :
  float_col f "High" = Some H ->
  float_col f "Low" = Some L ->
  float_col f "Close" = Some C ->
  nrows f <> 0 ->
  exists f', indicators f = (inr tt, f')
             /\ nrows f' = nrows f /\ has_indicators f' H L C.
Proof.
  destruct f as [n d]. intros HH HL HC Hn. eexists. split.
  - by apply indicators_run.
  - split; [done|]. by apply indicator_cols_has.
Qed.

(** ** Rows of the derived columns *)

Lemma lookup_rowmax3 a b c i x y z :
  a !! i = Some x -> b !! i = Some y -> c !! i = Some z ->
  rowmax3 a b c !! i = Some (nanmax2 (nanmax2 x y) z).
Proof.
  intros Ha Hb Hc. unfold rowmax3.
  rewrite lookup_zip_with, lookup_zip_with, Ha, Hb. simpl. by rewrite Hc.
Qed.

Lemma length_rowmax3 a b c :
  length a = length b -> length b = length c -> length (rowmax3 a b c) = length a.
Proof.
  intros Hab Hbc. unfold rowmax3. rewrite length_zip_with, length_zip_with. lia.
Qed.

Lemma lookup_abs_diff a b i x y :
  a !! i = Some x -> b !! i = Some y -> abs_diff a b !! i = Some (abs (sub x y)).
Proof.
  intros Ha Hb. unfold abs_diff.
  by rewrite list_lookup_fmap, (lookup_map2 _ _ _ _ _ _ Ha Hb).
Qed.

Lemma length_abs_diff a b : length a = length b -> length (abs_diff a b) = length a.
Proof. intros. unfold abs_diff. by rewrite length_fmap, length_map2. Qed.

Lemma lookup_ratio100 a b i x y :
  a !! i = Some x -> b !! i = Some y ->
  ratio100 a b !! i = Some (mul (div x y) (of_Z 100)).
Proof.
  intros Ha Hb. unfold ratio100.
  by rewrite list_lookup_fmap, (lookup_map2 _ _ _ _ _ _ Ha Hb).
Qed.

Lemma length_ratio100 a b : length a = length b -> length (ratio100 a b) = length a.
Proof. intros. unfold ratio100. by rewrite length_fmap, length_map2. Qed.

Lemma lookup_dm_where a b i x y :
  a !! i = Some x -> b !! i = Some y ->
  dm_where a b !! i
  = Some (if gt x y && gt x (Fin 0%Qc) then x else Fin 0%Qc).
Proof. intros Ha Hb. unfold dm_where. by rewrite lookup_zip_with, Ha, Hb. Qed.

Lemma length_dm_where a b : length a = length b -> length (dm_where a b) = length a.
Proof. intros. unfold dm_where. by rewrite length_zip_with_l_eq. Qed.

Lemma lookup_replace_nonfinite0 s i :
  replace_nonfinite0 s !! i
  = (fun x => if isfinite x then x else Fin 0%Qc) <$> s !! i.
Proof. apply list_lookup_fmap. Qed.

Section rows.

Variables (H L C : list float64) (n : nat).
Hypothesis HlenH : length H = n.
Hypothesis HlenL : length L = n.
Hypothesis HlenC : length C = n.

Lemma length_TR_of : length (TR_of H L C) = n.
Proof using HlenH HlenL HlenC.
  assert (length (TR1_of H L) = n) as H1.
  { unfold TR1_of. rewrite length_map2; congruence. }
  assert (length (TR2_of H C) = n) as H2.
  { unfold TR2_of. rewrite length_abs_diff; rewrite ?length_shift1; congruence. }
  assert (length (TR3_of L C) = n) as H3.
  { unfold TR3_of. rewrite length_abs_diff; rewrite ?length_shift1; congruence. }
  unfold TR_of. rewrite length_blank_first, length_rowmax3; congruence.
Qed.

Lemma length_UpMove_of : length (UpMove_of H) = n.
Proof using HlenH.
  unfold UpMove_of. rewrite length_map2; rewrite ?length_shift1; done.
Qed.

Lemma length_DownMove_of : length (DownMove_of L) = n.
Proof using HlenL.
  unfold DownMove_of. rewrite length_map2; rewrite ?length_shift1; done.
Qed.

Lemma length_plus_DM1_of : length (plus_DM1_of H L) = n.
Proof using HlenH HlenL.
  unfold plus_DM1_of.
  rewrite length_blank_first, length_dm_where;
    rewrite ?length_UpMove_of, ?length_DownMove_of; done.
Qed.

Lemma length_minus_DM1_of : length (minus_DM1_of H L) = n.
Proof using HlenH HlenL.
  unfold minus_DM1_of.
  rewrite length_blank_first, length_dm_where;
    rewrite ?length_UpMove_of, ?length_DownMove_of; done.
Qed.

Lemma length_TR14_of : length (TR14_of H L C) = n.
Proof using HlenH HlenL HlenC.
  unfold TR14_of. by rewrite wilder_length, length_fillna0, length_TR_of.
Qed.

Lemma length_plus_DM14_of : length (plus_DM14_of H L) = n.
Proof using HlenH HlenL.
  unfold plus_DM14_of. by rewrite wilder_length, length_fillna0, length_plus_DM1_of.
Qed.

Lemma length_minus_DM14_of : length (minus_DM14_of H L) = n.
Proof using HlenH HlenL.
  unfold minus_DM14_of. by rewrite wilder_length, length_fillna0, length_minus_DM1_of.
Qed.

Lemma length_plus_DI14_of : length (plus_DI14_of H L C) = n.
Proof using HlenH HlenL HlenC.
  unfold plus_DI14_of.
  rewrite length_ratio100; rewrite ?length_plus_DM14_of, ?length_TR14_of; done.
Qed.

Lemma length_minus_DI14_of : length (minus_DI14_of H L C) = n.
Proof using HlenH HlenL HlenC.
  unfold minus_DI14_of.
  rewrite length_ratio100; rewrite ?length_minus_DM14_of, ?length_TR14_of; done.
Qed.

Lemma length_DI_diff_of : length (DI_diff_of H L C) = n.
Proof using HlenH HlenL HlenC.
  unfold DI_diff_of.
  rewrite length_abs_diff; rewrite ?length_plus_DI14_of, ?length_minus_DI14_of; done.
Qed.

Lemma length_DI_sum_of : length (DI_sum_of H L C) = n.
Proof using HlenH HlenL HlenC.
  unfold DI_sum_of.
  rewrite length_map2; rewrite ?length_plus_DI14_of, ?length_minus_DI14_of; done.
Qed.

Lemma length_DX_of : length (DX_of H L C) = n.
Proof using HlenH HlenL HlenC.
  unfold DX_of, DX_raw_of, replace_nonfinite0.
  rewrite length_fmap, length_ratio100;
    rewrite ?length_DI_diff_of, ?length_DI_sum_of; done.
Qed.


(** Row 0 of [TR], [+DM 1] and [-DM 1]. *)
Lemma TR_of_row0 : n <> 0 -> TR_of H L C !! 0 = Some NaN.
Proof using HlenH HlenL HlenC.
  intros Hn. pose proof length_TR_of as Hl. unfold TR_of in *.
  rewrite length_blank_first in Hl. apply lookup_blank_first_0.
  intros Heq. rewrite Heq in Hl. simpl in Hl. lia.
Qed.

Lemma plus_DM1_of_row0 : n <> 0 -> plus_DM1_of H L !! 0 = Some NaN.
Proof using HlenH HlenL.
  clear HlenC. intros Hn. pose proof length_plus_DM1_of as Hl. unfold plus_DM1_of in *.
  rewrite length_blank_first in Hl. apply lookup_blank_first_0.
  intros Heq. rewrite Heq in Hl. simpl in Hl. lia.
Qed.

Lemma minus_DM1_of_row0 : n <> 0 -> minus_DM1_of H L !! 0 = Some NaN.
Proof using HlenH HlenL.
  clear HlenC. intros Hn. pose proof length_minus_DM1_of as Hl. unfold minus_DM1_of in *.
  rewrite length_blank_first in Hl. apply lookup_blank_first_0.
  intros Heq. rewrite Heq in Hl. simpl in Hl. lia.
Qed.

(** Later rows. *)
Lemma TR_of_row i h l c :
  H !! S i = Some h -> L !! S i = Some l -> C !! i = Some c ->
  TR_of H L C !! S i
  = Some (nanmax2 (nanmax2 (sub h l) (abs (sub h c))) (abs (sub l c))).
Proof using HlenH HlenL HlenC.
  intros Hh Hl Hc.
  assert (S i < n) by (rewrite <- HlenH; by eapply lookup_lt_Some).
  assert (shift1 C !! S i = Some c) by (rewrite lookup_shift1_S; [done|lia]).
  unfold TR_of. rewrite lookup_blank_first_S.
  apply lookup_rowmax3.
  - by apply lookup_map2.
  - by apply lookup_abs_diff.
  - by apply lookup_abs_diff.
Qed.

Lemma UpMove_of_row i h h' :
  H !! S i = Some h -> H !! i = Some h' -> UpMove_of H !! S i = Some (sub h h').
Proof using HlenH.
  clear HlenL HlenC. intros Hh Hh'.
  assert (S i < n) by (rewrite <- HlenH; by eapply lookup_lt_Some).
  apply lookup_map2; [done|]. rewrite lookup_shift1_S; [done|lia].
Qed.

Lemma DownMove_of_row i l l' :
  L !! S i = Some l -> L !! i = Some l' -> DownMove_of L !! S i = Some (sub l' l).
Proof using HlenL.
  clear HlenH HlenC. intros Hl Hl'.
  assert (S i < n) by (rewrite <- HlenL; by eapply lookup_lt_Some).
  apply lookup_map2; [|done]. rewrite lookup_shift1_S; [done|lia].
Qed.

Lemma plus_DM1_of_row i u d :
  UpMove_of H !! S i = Some u -> DownMove_of L !! S i = Some d ->
  plus_DM1_of H L !! S i
  = Some (if gt u d && gt u (Fin 0%Qc) then u else Fin 0%Qc).
Proof.
  intros Hu Hd. unfold plus_DM1_of. rewrite lookup_blank_first_S.
  by apply lookup_dm_where.
Qed.

Lemma minus_DM1_of_row i u d :
  UpMove_of H !! S i = Some u -> DownMove_of L !! S i = Some d ->
  minus_DM1_of H L !! S i
  = Some (if gt d u && gt d (Fin 0%Qc) then d else Fin 0%Qc).
Proof.
  intros Hu Hd. unfold minus_DM1_of. rewrite lookup_blank_first_S.
  by apply lookup_dm_where.
Qed.

End rows.

(** ** Rounding and selection of columns *)

Definition round_col (c : column) : column :=
  match c with
  | FloatCol v => FloatCol (round_series v)
  | ObjCol v => ObjCol v
  end.

Lemma dict_get_round_numeric d k :
  Dict.get (round_numeric d) k = round_col <$> Dict.get d k.
Proof.
  induction d as [|[k' c] d IH]; simpl; [done|].
  destruct (String.eqb k' k); [by destruct c|done].
Qed.

Lemma float_col_round_numeric n d k :
  float_col (Frame n (round_numeric d)) k
  = round_series <$> float_col (Frame n d) k.
Proof.
  unfold float_col. simpl. rewrite dict_get_round_numeric.
  by destruct (Dict.get d k) as [[v|v]|].
Qed.

Lemma dict_get_select final d k :
  Dict.get (select final d) k
  = if decide (k ∈ final) then Dict.get d k else None.
Proof.
  induction final as [|c final IH].
  - destruct (decide (k ∈ [])) as [Hin|]; [by apply elem_of_nil in Hin|done].
  - unfold select in *. cbn [omap list_omap].
    destruct (decide (k = c)) as [->|Hne].
    + rewrite decide_True by (apply elem_of_cons; by left).
      destruct (Dict.get d c) as [col|] eqn:Hc.
      * cbn [Dict.get]. by rewrite String.eqb_refl.
      * rewrite IH. destruct (decide (c ∈ final)); by rewrite ?Hc.
    + assert (k ∈ c :: final <-> k ∈ final) as Hiff.
      { rewrite elem_of_cons. split; [intros [?|?]; [congruence|done]|by right]. }
      assert (Dict.get (omap (fun c0 => match Dict.get d c0 with
                                        | Some col => Some (c0, col)
                                        | None => None
                                        end) final) k
              = if decide (k ∈ c :: final) then Dict.get d k else None) as Htail.
      { rewrite IH. destruct (decide (k ∈ final)) as [Hin|Hnin].
        - by rewrite decide_True by (by apply Hiff).
        - by rewrite decide_False by (by rewrite Hiff). }
      destruct (Dict.get d c) as [col|]; [|exact Htail].
      cbn [Dict.get]. assert (String.eqb c k = false) as ->; [|exact Htail].
      apply String.eqb_neq. congruence.
Qed.

Lemma dict_get_set_is_Some {V} (d : list (string * V)) k k' v :
  is_Some (Dict.get d k) -> is_Some (Dict.get (Dict.set d k' v) k).
Proof. intros. rewrite dict_get_set. by destruct (String.eqb k' k). Qed.

Lemma dict_get_foldl_set_notin {V} (l : list (string * V)) d k :
  k ∉ l.*1 ->
  Dict.get (foldl (fun d kv => Dict.set d kv.1 kv.2) d l) k = Dict.get d k.
Proof.
  revert d. induction l as [|[k' v] l IH]; intros d Hk; [done|].
  cbn [fmap list_fmap fst] in Hk. apply not_elem_of_cons in Hk as [Hne Hk].
  cbn [foldl fst snd]. rewrite IH by done. apply dict_get_set_ne. congruence.
Qed.

Lemma dict_get_values {V} (d : list (string * V)) k v :
  Dict.get d k = Some v -> v ∈ Dict.values d.
Proof.
  induction d as [|[k' v'] d IH]; [done|].
  cbn [Dict.get]. unfold Dict.values. cbn [fmap list_fmap snd].
  destruct (String.eqb k' k).
  - intros [= ->]. apply elem_of_cons. by left.
  - intros Hget. apply elem_of_cons. right. by apply IH.
Qed.

Lemma float_col_select_round final n n' d1 d2 name v :
  name ∈ final ->
  Dict.get d2 name = round_col <$> Dict.get d1 name ->
  float_col (Frame n d1) name = Some v ->
  float_col (Frame n' (select final d2)) name = Some (round_series v).
Proof.
  intros Hin Hget. unfold float_col. cbn [cols].
  rewrite dict_get_select, decide_True by done. rewrite Hget.
  destruct (Dict.get d1 name) as [[w|w]|]; cbn; congruence.
Qed.

(** ** Running [calculate_adx] on the heap *)

Lemma heap_lookup_last (h : list frame) f : (h ++ [f]) !! length h = Some f.
Proof. by rewrite list_lookup_middle. Qed.

Lemma heap_lookup_last2 (h : list frame) f g :
  (h ++ [f; g]) !! S (length h) = Some g.
Proof.
  change (h ++ [f; g]) with (h ++ [f] ++ [g]). rewrite app_assoc.
  rewrite list_lookup_middle; [done|]. rewrite length_app. simpl. lia.
Qed.

Lemma heap_insert_last2 (h : list frame) f g g' :
  <[S (length h) := g']> (h ++ [f; g]) = h ++ [f; g'].
Proof.
  rewrite insert_app_r_alt by lia.
  replace (S (length h) - length h) with 1 by lia. done.
Qed.

Lemma on_frame_last2 {A} (m : M frame A) (h : list frame) f g :
  on_frame (S (length h)) m (h ++ [f; g])
  = ((m g).1, h ++ [f; (m g).2]).
Proof.
  unfold on_frame. rewrite heap_lookup_last2.
  destruct (m g) as [r g']. simpl. by rewrite heap_insert_last2.
Qed.

Lemma bind_unfold {S A B} (m : M S A) (k : A -> M S B) (s : S) :
  (m ≫= k) s
  = match m s with
    | (inl e, s') => (inl e, s')
    | (inr a, s') => k a s'
    end.
Proof. reflexivity. Qed.

Lemma on_frame_bind_last2 {A B} (m : M frame A) (k : A -> M (list frame) B)
      (h : list frame) f g :
  (on_frame (S (length h)) m ≫= k) (h ++ [f; g])
  = match m g with
    | (inl e, g') => (inl e, h ++ [f; g'])
    | (inr a, g') => k a (h ++ [f; g'])
    end.
Proof.
  rewrite bind_unfold, on_frame_last2. by destruct (m g) as [[e|a] g'].
Qed.

Section calculate_adx_run.

Variable parse_float : string -> option float64.
Variable str_of_float : float64 -> string.

(** The three blocks that [calculate_adx] runs on the renamed frame. *)
Definition pipeline (date_col : option string) : M frame (list string) :=
  coerce_ohlc parse_float;; indicators;; finalize str_of_float date_col.

Definition date_col_of (f0 : frame) : option string :=
  match labels f0 with
  | [] => None
  | first_col :: _ =>
      if bool_decide (Some first_col ∈ Dict.values (detect_ohlc_columns (labels f0)))
      then None else Some first_col
  end.

Definition renamed (f0 : frame) : frame :=
  Frame (nrows f0)
        (rename_cols (rename_map (detect_ohlc_columns (labels f0))) (cols f0)).

(** The outcome of [calculate_adx] and the objects it allocates: the copy of
    the input, the renamed frame that it then mutates, the selected output. *)
Definition calculate_adx_on (f0 : frame) : (exn + unit) * list frame :=
  if bool_decide (None ∈ Dict.values (detect_ohlc_columns (labels f0))) then
    (inl (ValueError (missing_message
                        (missing_keys (detect_ohlc_columns (labels f0))))),
     [f0])
  else
    match labels f0 with
    | [] => (inl IndexError, [f0])
    | _ :: _ =>
        if bool_decide (NoDup (labels (renamed f0))) then
          match pipeline (date_col_of f0) (renamed f0) with
          | (inl e, g) => (inl e, [f0; g])
          | (inr final, g) =>
              (inr tt, [f0; g; Frame (nrows g) (select final (cols g))])
          end
        else (inl Unmodelled, [f0; renamed f0])
    end.

Lemma calculate_adx_unfold (h : list frame) (l : nat) (f0 : frame) :
  h !! l = Some f0 ->
  calculate_adx parse_float str_of_float l h
  = (match (calculate_adx_on f0).1 with
     | inl e => inl e
     | inr _ => inr (S (S (length h)))
     end,
     h ++ (calculate_adx_on f0).2).
Proof.
  intros Hl. unfold calculate_adx, calculate_adx_on.
  erewrite (run_bind (load l)); [|by unfold load; rewrite Hl].
  erewrite (run_bind (alloc f0)); [|reflexivity].
  erewrite (run_bind (load _)); [|by unfold load; rewrite heap_lookup_last].
  case_bool_decide as Hmiss; [reflexivity|].
  destruct (labels f0) as [|first_col rest] eqn:Hlab; [reflexivity|].
  erewrite (run_bind (mret first_col)); [|reflexivity].
  erewrite (run_bind (load _)); [|by unfold load; rewrite heap_lookup_last].
  erewrite (run_bind (alloc _)); [|reflexivity].
  rewrite length_app. simpl length. rewrite Nat.add_1_r.
  rewrite <- app_assoc. simpl app.
  erewrite (run_bind (load _)); [|by unfold load; rewrite heap_lookup_last2].
  rewrite <- Hlab. fold (renamed f0).
  case_bool_decide as Hdup; [|reflexivity].
  unfold pipeline. rewrite on_frame_bind_last2, bind_unfold.
  destruct (coerce_ohlc parse_float (renamed f0)) as [[e|[]] g0]; [reflexivity|].
  rewrite on_frame_bind_last2, bind_unfold.
  destruct (indicators g0) as [[e|[]] g1]; [reflexivity|].
  rewrite on_frame_bind_last2.
  replace (if bool_decide (Some first_col ∈ Dict.values (detect_ohlc_columns (labels f0)))
           then None else Some first_col) with (date_col_of f0)
    by (unfold date_col_of; by rewrite Hlab).
  destruct (finalize str_of_float (date_col_of f0) g1) as [[e|final] g2];
    [reflexivity|].
  erewrite (run_bind (load _)); [|by unfold load; rewrite heap_lookup_last2].
  unfold alloc. rewrite length_app. simpl length.
  rewrite <- app_assoc. simpl app. cbn [fst snd].
  do 2 f_equal. lia.
Qed.


(** The result of a run: the exception raised, or the frame returned. *)
Definition result_of (r : (exn + nat) * list frame) : exn + option frame :=
  match r.1 with
  | inl e => inl e
  | inr l => inr (r.2 !! l)
  end.

Lemma calculate_adx_on_length (f0 : frame) :
  match (calculate_adx_on f0).1 with
  | inl _ => True
  | inr _ => length (calculate_adx_on f0).2 = 3
  end.
Proof.
  unfold calculate_adx_on. case_bool_decide; [done|].
  destruct (labels f0); [done|]. case_bool_decide; [|done].
  by destruct (pipeline _ _) as [[e|final] g].
Qed.

Lemma calculate_adx_result (h : list frame) (l : nat) (f0 : frame) :
  h !! l = Some f0 ->
  result_of (calculate_adx parse_float str_of_float l h)
  = match (calculate_adx_on f0).1 with
    | inl e => inl e
    | inr _ => inr ((calculate_adx_on f0).2 !! 2)
    end.
Proof.
  intros Hl. rewrite (calculate_adx_unfold h l f0 Hl). unfold result_of.
  destruct (calculate_adx_on f0) as [[e|[]] news]; simpl; [done|].
  f_equal. rewrite lookup_app_r by lia. f_equal. lia.
Qed.

(** *** No block of the pipeline raises [ValueError] *)














(** *** The blocks around [indicators] *)

Definition coerced_cols (co ch cl cc : column) (d : list (string * column))
  : list (string * column) :=
  let d := Dict.set d "Open" (FloatCol (to_numeric parse_float co)) in
  let d := Dict.set d "High" (FloatCol (to_numeric parse_float ch)) in
  let d := Dict.set d "Low" (FloatCol (to_numeric parse_float cl)) in
  Dict.set d "Close" (FloatCol (to_numeric parse_float cc)).

Lemma getitem_ok f name c :
  Dict.get (cols f) name = Some c -> getitem name f = (inr c, f).
Proof. intros Hc. unfold getitem. by rewrite Hc. Qed.

Lemma coerce_ohlc_run n d co ch cl cc :
  Dict.get d "Open" = Some co -> Dict.get d "High" = Some ch ->
  Dict.get d "Low" = Some cl -> Dict.get d "Close" = Some cc ->
  coerce_ohlc parse_float (Frame n d)
  = (inr tt, Frame n (coerced_cols co ch cl cc d)).
Proof.
  intros Ho Hh Hl Hc. unfold coerce_ohlc.
  do 4 (erewrite (run_bind (getitem _)); [|by apply getitem_ok]).
  reflexivity.
Qed.

Lemma finalize_run_None n d :
  finalize str_of_float None (Frame n d)
  = (inr output_columns, Frame n (round_numeric d)).
Proof. reflexivity. Qed.

Lemma finalize_run_Some n d dc c :
  Dict.get d dc = Some c ->
  finalize str_of_float (Some dc) (Frame n d)
  = (inr (dc :: output_columns),
     Frame n (Dict.set (round_numeric d) dc (astype_str str_of_float (round_col c)))).
Proof.
  intros Hc. unfold finalize. rewrite bind_unfold. cbn [nrows cols].
  erewrite (run_bind (getitem _));
    [|apply getitem_ok; cbn [cols]; by rewrite dict_get_round_numeric, Hc].
  reflexivity.
Qed.

Lemma date_col_not_renamed (f0 : frame) dc :
  date_col_of f0 = Some dc ->
  Dict.get (rename_map (detect_ohlc_columns (labels f0))) dc = None.
Proof.
  unfold date_col_of. destruct (labels f0) as [|first_col rest]; [done|].
  generalize (detect_ohlc_columns (first_col :: rest)). intros m.
  case_bool_decide as Hin; [done|]. intros [= ->].
  unfold rename_map, Dict.of_list. rewrite dict_get_foldl_set_notin; [done|].
  intros Hk. apply list_elem_of_fmap in Hk as ([k t] & -> & Hkt).
  apply list_elem_of_omap in Hkt as ([key target] & _ & Hf).
  cbn [fst snd] in Hf.
  destruct (Dict.get m key) as [[orig|]|] eqn:Hget; simplify_eq.
  apply Hin. by eapply dict_get_values.
Qed.

Lemma date_col_present (f0 : frame) dc :
  date_col_of f0 = Some dc -> is_Some (Dict.get (cols (renamed f0)) dc).
Proof.
  intros Hdc. pose proof (date_col_not_renamed f0 dc Hdc) as Hren.
  unfold renamed. cbn [cols].
  set (m := rename_map _) in *. clearbody m.
  unfold date_col_of in Hdc.
  destruct (labels f0) as [|k rest] eqn:Hlab; [done|].
  case_bool_decide; [done|]. simplify_eq.
  unfold labels, Dict.keys in Hlab.
  destruct (cols f0) as [|[k' c] d]; [done|].
  cbn [fmap list_fmap fst] in Hlab. simplify_eq.
  unfold rename_cols. cbn [fmap list_fmap fst snd Dict.get].
  rewrite Hren. cbn [default from_option id]. by rewrite String.eqb_refl.
Qed.


(** *** The whole of [calculate_adx] on a supported input *)

(** An input on which the run reaches the end: the four columns are
    detected, the labels of the renamed frame are distinct and include the
    four canonical names, and there is at least one row. *)
Record supported (f0 : frame) (co ch cl cc : column) : Prop := {
  sup_detected : None ∉ Dict.values (detect_ohlc_columns (labels f0));
  sup_unique : NoDup (labels (renamed f0));
  sup_open : Dict.get (cols (renamed f0)) "Open" = Some co;
  sup_high : Dict.get (cols (renamed f0)) "High" = Some ch;
  sup_low : Dict.get (cols (renamed f0)) "Low" = Some cl;
  sup_close : Dict.get (cols (renamed f0)) "Close" = Some cc;
  sup_rows : nrows f0 <> 0;
}.

Lemma coerced_cols_read n d co ch cl cc :
  float_col (Frame n (coerced_cols co ch cl cc d)) "Open"
  = Some (to_numeric parse_float co)
  /\ float_col (Frame n (coerced_cols co ch cl cc d)) "High"
     = Some (to_numeric parse_float ch)
  /\ float_col (Frame n (coerced_cols co ch cl cc d)) "Low"
     = Some (to_numeric parse_float cl)
  /\ float_col (Frame n (coerced_cols co ch cl cc d)) "Close"
     = Some (to_numeric parse_float cc).
Proof. unfold coerced_cols. repeat split; read_col. Qed.

Lemma pipeline_run (f0 : frame) (co ch cl cc : column) :
  supported f0 co ch cl cc ->
  let n := nrows f0 in
  let d0 := coerced_cols co ch cl cc (cols (renamed f0)) in
  let d1 := indicator_cols (to_numeric parse_float ch) (to_numeric parse_float cl)
                           (to_numeric parse_float cc) n d0 in
  coerce_ohlc parse_float (renamed f0) = (inr tt, Frame n d0)
  /\ indicators (Frame n d0) = (inr tt, Frame n d1)
  /\ exists final g2,
       pipeline (date_col_of f0) (renamed f0) = (inr final, g2)
       /\ nrows g2 = n
       /\ (forall name, name ∈ output_columns -> name ∈ final)
       /\ (forall name, date_col_of f0 <> Some name ->
             Dict.get (cols g2) name = round_col <$> Dict.get d1 name).
Proof.
  intros [Hdet Huniq Ho Hh Hl Hc Hrows]. cbv zeta.
  pose proof (coerce_ohlc_run (nrows f0) _ co ch cl cc Ho Hh Hl Hc) as Hco.
  destruct (coerced_cols_read (nrows f0) (cols (renamed f0)) co ch cl cc)
    as (_ & HH & HL & HC).
  pose proof (indicators_run _ _ _ _ _ HH HL HC Hrows) as Hind.
  split; [exact Hco|]. split; [exact Hind|].
  unfold pipeline. rewrite bind_unfold.
  change (coerce_ohlc parse_float (renamed f0))
    with (coerce_ohlc parse_float (Frame (nrows f0) (cols (renamed f0)))).
  rewrite Hco. cbn beta iota. rewrite bind_unfold, Hind. cbn beta iota.
  destruct (date_col_of f0) as [dc|] eqn:Hdc.
  - match goal with
    | |- context [finalize _ _ (Frame _ ?d)] =>
        assert (is_Some (Dict.get d dc)) as [c Hcol]
    end.
    { unfold indicator_cols, di_dx_cols, smoothed_cols, tr_dm_cols,
        coerced_cols.
      do 28 apply dict_get_set_is_Some. by apply date_col_present. }
    rewrite (finalize_run_Some _ _ _ _ Hcol).
    eexists _, _. split; [reflexivity|]. split; [reflexivity|].
    split; [intros name Hname; apply elem_of_cons; by right|].
    intros name Hname. cbn [cols].
    rewrite dict_get_set_ne by congruence. apply dict_get_round_numeric.
  - rewrite finalize_run_None.
    eexists _, _. split; [reflexivity|]. split; [reflexivity|].
    split; [by intros|].
    intros name _. apply dict_get_round_numeric.
Qed.

Lemma calculate_adx_ok (h : list frame) (l : nat) (f0 : frame)
      (co ch cl cc : column) :
  h !! l = Some f0 ->
  supported f0 co ch cl cc ->
  let H := to_numeric parse_float ch in
  let L := to_numeric parse_float cl in
  let C := to_numeric parse_float cc in
  exists g0 g1 g2 out,
    coerce_ohlc parse_float (renamed f0) = (inr tt, g0)
    /\ float_col g0 "Open" = Some (to_numeric parse_float co)
    /\ float_col g0 "High" = Some H
    /\ float_col g0 "Low" = Some L
    /\ float_col g0 "Close" = Some C
    /\ nrows g0 = nrows f0
    /\ indicators g0 = (inr tt, g1)
    /\ nrows g1 = nrows f0
    /\ has_indicators g1 H L C
    /\ calculate_adx parse_float str_of_float l h
       = (inr (S (S (length h))), h ++ [f0; g2; out])
    /\ nrows out = nrows f0
    /\ (forall name v,
          name ∈ output_columns -> date_col_of f0 <> Some name ->
          float_col g1 name = Some v ->
          float_col out name = Some (round_series v))
    /\ (float_col out "Open"
        = Some (round_series (to_numeric parse_float co))
        \/ date_col_of f0 = Some "Open"%string).
Proof.
  intros Hl Hsup. cbv zeta.
  destruct (pipeline_run f0 co ch cl cc Hsup)
    as (Hco & Hind & final & g2 & Hpipe & Hn2 & Hfinal & Hcols).
  destruct (coerced_cols_read (nrows f0) (cols (renamed f0)) co ch cl cc)
    as (HO & HH & HL & HC).
  pose proof (indicator_cols_has (nrows f0) _ _ _ _ HH HL HC) as Hhas.
  eexists _, _, g2, (Frame (nrows g2) (select final (cols g2))).
  split; [exact Hco|]. do 4 (split; [eassumption|]). split; [reflexivity|].
  split; [exact Hind|]. split; [reflexivity|].
  split; [exact Hhas|].
  match goal with
  | |- _ /\ _ /\ ?P /\ _ => assert P as Hout
  end.
  { intros name v Hname Hdc Hv.
    eapply float_col_select_round; [by apply Hfinal|by apply Hcols|exact Hv]. }
  split.
  { rewrite (calculate_adx_unfold h l f0 Hl). unfold calculate_adx_on.
    destruct Hsup as [Hdet Huniq _ _ _ _ Hrows].
    rewrite bool_decide_eq_false_2 by done.
    destruct (labels f0) as [|k rest] eqn:Hlab.
    { exfalso. apply Hdet. vm_compute.
      apply elem_of_cons. by left. }
    rewrite bool_decide_eq_true_2 by done. rewrite Hpipe. reflexivity. }
  split; [exact Hn2|]. split; [exact Hout|].
  destruct (decide (date_col_of f0 = Some "Open"%string)) as [|Hne]; [by right|].
  left. apply Hout; [apply elem_of_cons; by left|done|].
  unfold indicator_cols, di_dx_cols, smoothed_cols, tr_dm_cols. read_col.
Qed.

End calculate_adx_run.

(** ** True range and directional movement (claims C7, C8, C9) *)

(** The frame [indicators] is run on: High, Low and Close are numeric
    columns with one value per row. *)
Record ohlc_ready (f : frame) (H L C : list float64) : Prop := {
  ready_High : float_col f "High" = Some H;
  ready_Low : float_col f "Low" = Some L;
  ready_Close : float_col f "Close" = Some C;
  ready_length_High : length H = nrows f;
  ready_length_Low : length L = nrows f;
  ready_length_Close : length C = nrows f;
}.

Lemma indicators_ready f H L C :
  ohlc_ready f H L C -> nrows f <> 0 ->
  exists f', indicators f = (inr tt, f')
             /\ nrows f' = nrows f /\ has_indicators f' H L C.
Proof. intros [] Hn. by apply indicators_ok. Qed.

Definition Qc_max (p q : Qc) : Qc := if Qc_ltb p q then q else p.

Lemma nanmax2_Fin p q : nanmax2 (Fin p) (Fin q) = Fin (Qc_max p q).
Proof. unfold nanmax2, Qc_max. simpl. by destruct (Qc_ltb p q). Qed.

Lemma Qc_max_spec p q :
  (p <= Qc_max p q)%Qc /\ (q <= Qc_max p q)%Qc
  /\ (Qc_max p q = p \/ Qc_max p q = q).
Proof.
  unfold Qc_max. destruct (Qc_ltb p q) eqn:Hpq.
  - apply Qc_ltb_lt in Hpq. split; [by apply Qclt_le_weak|].
    split; [apply Qcle_refl|by right].
  - apply Qc_ltb_ge in Hpq. split; [apply Qcle_refl|]. split; [done|by left].
Qed.

Lemma Qc_abs_nonneg q : (0 <= Qc_abs q)%Qc.
Proof.
  unfold Qc_abs, Qc_is_neg. destruct (Qc_ltb q 0) eqn:Hq.
  - apply Qc_ltb_lt, Qclt_le_weak, Qcopp_le_compat in Hq.
    by replace (- 0)%Qc with 0%Qc in Hq by (by apply Qc_is_canon).
  - by apply Qc_ltb_ge.
Qed.



(** C7.  On every row [i > 0], at most one of [+DM 1[i]] and [-DM 1[i]] is
    nonzero, and both are 0 when [UpMove[i]] equals [DownMove[i]]. *)
Theorem dm_mutually_exclusive (f : frame) (H L C : list float64) (i : nat) :
  ohlc_ready f H L C ->
  0 < i < nrows f ->
  exists f' up down x y u d,
    indicators f = (inr tt, f')
    /\ float_col f' "UpMove" = Some up /\ float_col f' "DownMove" = Some down
    /\ float_col f' "+DM 1" = Some x /\ float_col f' "-DM 1" = Some y
    /\ up !! i = Some u /\ down !! i = Some d
    /\ x !! i = Some (if gt u d && gt u (Fin 0%Qc) then u else Fin 0%Qc)
    /\ y !! i = Some (if gt d u && gt d (Fin 0%Qc) then d else Fin 0%Qc)
    /\ (x !! i = Some (Fin 0%Qc) \/ y !! i = Some (Fin 0%Qc))
    /\ (u = d -> x !! i = Some (Fin 0%Qc) /\ y !! i = Some (Fin 0%Qc)).
Proof.
  intros Hready [Hi Hn].
  destruct (indicators_ready f H L C Hready) as (f' & Hrun & _ & Hind); [lia|].
  destruct Hready as [_ _ _ HlenH HlenL HlenC].
  destruct i as [|j]; [lia|].
  destruct (lookup_lt_is_Some_2 H (S j)) as [h Hh]; [lia|].
  destruct (lookup_lt_is_Some_2 H j) as [h' Hh']; [lia|].
  destruct (lookup_lt_is_Some_2 L (S j)) as [l Hl]; [lia|].
  destruct (lookup_lt_is_Some_2 L j) as [l' Hl']; [lia|].
  pose proof (UpMove_of_row H (nrows f) HlenH j _ _ Hh Hh') as Hu.
  pose proof (DownMove_of_row L (nrows f) HlenL j _ _ Hl Hl') as Hd.
  pose proof (plus_DM1_of_row H L j _ _ Hu Hd) as Hx.
  pose proof (minus_DM1_of_row H L j _ _ Hu Hd) as Hy.
  exists f', (UpMove_of H), (DownMove_of L), (plus_DM1_of H L),
    (minus_DM1_of H L), (sub h h'), (sub l' l).
  destruct Hind. do 9 (split; [done|]).
  rewrite Hx, Hy. split.
  - destruct (gt (sub h h') (sub l' l)) eqn:Hgt.
    + right. by rewrite (gt_asym _ _ Hgt).
    + by left.
  - intros ->. by rewrite gt_irrefl.
Qed.

(** *** Sample tables *)

Definition float_column (zs : list Z) : column := FloatCol (of_Z <$> zs).

(** Thirty rows; High and Low rise by 1 a day, the daily range is 1. *)
Definition rising_days : list Z := Z.of_nat <$> seq 0 30.

Definition rising_ohlc : frame :=
  Frame 30 [("Open", float_column rising_days);
            ("High", float_column (Z.succ <$> rising_days));
            ("Low", float_column rising_days);
            ("Close", float_column (Z.succ <$> rising_days))]%string.

(** The same prices as read from a file: a leading date column, headers in
    mixed case and abbreviated. *)
Definition rising_csv : frame :=
  Frame 30 [("Date", ObjCol ((fun _ => CStr "2025-12-03") <$> rising_days));
            ("open", float_column rising_days);
            ("HIGH", float_column (Z.succ <$> rising_days));
            ("Low", float_column rising_days);
            ("c", float_column (Z.succ <$> rising_days))]%string.

(** Sixteen rows at the constant price 1. *)
Definition flat_csv : frame :=
  Frame 16 [("Open", float_column (replicate 16 1%Z));
            ("High", float_column (replicate 16 1%Z));
            ("Low", float_column (replicate 16 1%Z));
            ("Close", float_column (replicate 16 1%Z))]%string.


Definition no_parse : string -> option float64 := fun _ => None.
Definition no_str : float64 -> string := fun _ => ""%string.

(** The cell at row [i] of the numeric column [name] of the frame returned
    by a run. *)
Definition cell_of (r : (exn + nat) * list frame) (name : string) (i : nat)
  : option float64 :=
  match result_of r with
  | inr (Some out) => float_col out name ≫= fun s => s !! i
  | _ => None
  end.

(** The end-to-end scenario of the specification: on the rising table +DM
    wins every day, DX is 100 from index 14 on, and ADX is 100 at indices 27
    and 28. *)
Example rising_adx :
  let r := calculate_adx no_parse no_str 0 [rising_csv] in
  cell_of r "DX" 14 = Some (of_Z 100)
  /\ cell_of r "ADX" 26 = Some NaN
  /\ cell_of r "ADX" 27 = Some (of_Z 100)
  /\ cell_of r "ADX" 28 = Some (of_Z 100).
Proof. by_eval. Qed.

Lemma rising_ohlc_ready :
  ohlc_ready rising_ohlc (of_Z <$> (Z.succ <$> rising_days))
             (of_Z <$> rising_days) (of_Z <$> (Z.succ <$> rising_days)).
Proof. split; reflexivity. Qed.


Lemma dm_mutually_exclusive_witness :
  exists f' x y,
    indicators rising_ohlc = (inr tt, f')
    /\ float_col f' "+DM 1" = Some x /\ float_col f' "-DM 1" = Some y
    /\ (x !! 5 = Some (Fin 0%Qc) \/ y !! 5 = Some (Fin 0%Qc)).
Proof.
  destruct (dm_mutually_exclusive rising_ohlc _ _ _ 5 rising_ohlc_ready)
    as (f' & up & down & x & y & u & d & Hrun & _ & _ & Hx & Hy & _ & _ & _ & _
        & Hexcl & _).
  - simpl. lia.
  - exists f', x, y. repeat split; assumption.
Defined.

(** ** DI, DX and ADX (claims C3 and C4) *)

Lemma replace_nonfinite0_finite s :
  Forall (fun x => isfinite x = true) (replace_nonfinite0 s).
Proof.
  unfold replace_nonfinite0. apply Forall_fmap, Forall_forall.
  intros x _. simpl. by destruct x.
Qed.

Lemma length_slice a b (s : list float64) :
  b <= length s -> length (slice a b s) = b - a.
Proof. intros. unfold slice. rewrite length_take, length_drop. lia. Qed.

Lemma slice_finite_no_nan a b s :
  Forall (fun x => isfinite x = true) s ->
  Forall (fun x => isnan x = false) (slice a b s).
Proof.
  intros Hs. unfold slice. apply Forall_take, Forall_drop.
  eapply Forall_impl; [exact Hs|]. intros x. by destruct x.
Qed.

(** C3.  On a table of more than [2N - 1 = 27] rows the ADX column is
    undefined below index 27, its value at index 27 is the sum of
    [DX[14..27]] divided by 14, and for [i > 27] it is
    [(ADX[i-1] * 13 + DX[i]) / 14]; if DX is the constant [v] on indices
    14..27 then [ADX[27] = v] and [ADX[28] = (v * 13 + DX[28]) / 14].  The
    columns are those the program holds before the final rounding. *)
Theorem adx_seed_and_recursion (f : frame) (H L C : list float64) :
  ohlc_ready f H L C ->
  2 * N - 1 < nrows f ->
  exists f' dx adx,
    indicators f = (inr tt, f')
    /\ float_col f' "DX" = Some dx /\ float_col f' "ADX" = Some adx
    /\ (forall i, i < 2 * N - 1 -> adx !! i = Some NaN)
    /\ adx !! (2 * N - 1)
       = Some (div (foldl add (Fin 0%Qc) (slice N (2 * N) dx)) (of_nat N))
    /\ (forall i, 2 * N - 1 < i < nrows f ->
          adx !! i
          = Some (div (add (mul (adx !!! (i - 1)) (of_nat (N - 1))) (dx !!! i))
                      (of_nat N)))
    /\ (forall v : Qc,
          (forall i, N <= i <= 2 * N - 1 -> dx !! i = Some (Fin v)) ->
          adx !! (2 * N - 1) = Some (Fin v)
          /\ (2 * N < nrows f ->
              adx !! (2 * N)
              = Some (div (add (mul (Fin v) (of_nat (N - 1))) (dx !!! (2 * N)))
                          (of_nat N)))).
Proof.
  intros Hready Hn.
  destruct (indicators_ready f H L C Hready) as (f' & Hrun & Hn' & Hind);
    [lia|].
  destruct Hready as [_ _ _ HlenH HlenL HlenC].
  pose proof (length_DX_of H L C (nrows f) HlenH HlenL HlenC) as Hlen.
  exists f', (DX_of H L C), (ADX_of H L C (nrows f)).
  split; [done|]. split; [by destruct Hind|].
  split; [destruct Hind; congruence|].
  set (dx := DX_of H L C) in *.
  assert (Hseed : ADX_of H L C (nrows f) !! (2 * N - 1)
                  = Some (mean (slice N (2 * N) dx))).
  { unfold ADX_of. rewrite adx_seed by done.
    by replace (2 * N - 1 + 1) with (2 * N) by (unfold N; lia). }
  split; [|split; [|split]].
  - intros i Hi. apply adx_before_seed; lia.
  - rewrite Hseed. f_equal. rewrite mean_no_nan.
    + rewrite length_slice by (unfold N in *; lia).
      by replace (2 * N - N) with N by lia.
    + intros Heq. apply (f_equal length) in Heq.
      rewrite length_slice in Heq by (unfold N in *; lia).
      unfold N in Heq. simpl in Heq. lia.
    + apply slice_finite_no_nan, replace_nonfinite0_finite.
  - intros i Hi. unfold ADX_of. by rewrite adx_after_seed by lia.
  - intros v Hv.
    assert (Hconst : ADX_of H L C (nrows f) !! (2 * N - 1) = Some (Fin v)).
    { rewrite Hseed. f_equal.
      replace (2 * N) with (N + N) by lia.
      rewrite (slice_constant dx N N (Fin v)) by (intros; apply Hv; lia).
      apply mean_constant. }
    split; [done|]. intros Hn2.
    unfold ADX_of in *. rewrite adx_after_seed by (unfold N in *; lia).
    by rewrite (list_lookup_total_correct _ _ _ Hconst).
Qed.

Lemma adx_seed_and_recursion_witness :
  exists f' dx adx,
    indicators rising_ohlc = (inr tt, f')
    /\ float_col f' "DX" = Some dx /\ float_col f' "ADX" = Some adx
    /\ (forall i, i < 2 * N - 1 -> adx !! i = Some NaN)
    /\ adx !! (2 * N - 1)
       = Some (div (foldl add (Fin 0%Qc) (slice N (2 * N) dx)) (of_nat N)).
Proof.
  destruct (adx_seed_and_recursion rising_ohlc _ _ _ rising_ohlc_ready)
    as (f' & dx & adx & Hrun & Hdx & Hadx & Hbelow & Hseed & _).
  - vm_compute. lia.
  - exists f', dx, adx. repeat split; assumption.
Defined.

Lemma div_zero_nonfinite a : isfinite (div a (Fin 0%Qc)) = false.
Proof.
  destruct a as [|s|p]; simpl; try done.
  change (Qc_is_zero 0%Qc) with true. cbn iota. by destruct (Qc_is_zero p).
Qed.

Lemma mul_nonfinite_l x y : isfinite x = false -> isfinite (mul x y) = false.
Proof.
  destruct x as [|s|p], y as [|t|q]; simpl; try done.
  by destruct (Qc_is_zero q).
Qed.

Lemma sub_nonfinite_l x y : isfinite x = false -> isfinite (sub x y) = false.
Proof.
  destruct x as [|s|p], y as [|t|q]; simpl; try done.
  by destruct (Bool.eqb s t).
Qed.

Lemma add_nonfinite_l x y : isfinite x = false -> isfinite (add x y) = false.
Proof.
  destruct x as [|s|p], y as [|t|q]; simpl; try done.
  by destruct (Bool.eqb s t).
Qed.

Lemma abs_nonfinite x : isfinite x = false -> isfinite (abs x) = false.
Proof. by destruct x. Qed.

Lemma div_nonfinite x y :
  isfinite x = false -> isfinite y = false -> div x y = NaN.
Proof. by destruct x, y. Qed.

(** The DX of a row on which both DI values are not finite is 0. *)
Lemma dx_of_nonfinite_di x y :
  isfinite x = false -> isfinite y = false ->
  (if isfinite (mul (div (abs (sub x y)) (add x y)) (of_Z 100))
   then mul (div (abs (sub x y)) (add x y)) (of_Z 100) else Fin 0%Qc)
  = Fin 0%Qc.
Proof.
  intros Hx Hy.
  rewrite (div_nonfinite (abs (sub x y)) (add x y)); [done| |].
  - by apply abs_nonfinite, sub_nonfinite_l.
  - by apply add_nonfinite_l.
Qed.

Lemma DX_of_row H L C i x y :
  plus_DI14_of H L C !! i = Some x -> minus_DI14_of H L C !! i = Some y ->
  DX_of H L C !! i
  = Some (if isfinite (mul (div (abs (sub x y)) (add x y)) (of_Z 100))
          then mul (div (abs (sub x y)) (add x y)) (of_Z 100) else Fin 0%Qc).
Proof.
  intros Hx Hy. unfold DX_of, DX_raw_of, DI_diff_of, DI_sum_of.
  rewrite lookup_replace_nonfinite0.
  erewrite lookup_ratio100;
    [done|by apply lookup_abs_diff|by apply lookup_map2].
Qed.

(** C4, as stated, fails on sixteen days at the constant price 1: at row 14
    [TR14] is 0 and both [+DI14] and [-DI14] are undefined, not 0. *)
Lemma di_undefined_when_tr14_zero :
  let r := calculate_adx no_parse no_str 0 [flat_csv] in
  cell_of r "TR14" 14 = Some (Fin 0%Qc)
  /\ cell_of r "+DI14" 14 = Some NaN
  /\ cell_of r "-DI14" 14 = Some NaN
  /\ cell_of r "+DI14" 14 <> Some (Fin 0%Qc)
  /\ cell_of r "-DI14" 14 <> Some (Fin 0%Qc).
Proof. by_eval. Qed.

(** C4 (amended).  On every row [i], [+DI14[i]] is [(+DM14[i] / TR14[i]) * 100]
    and [-DI14[i]] is [(-DM14[i] / TR14[i]) * 100] in floating-point
    arithmetic, and no error is raised.  Where [TR14[i]] is 0 neither value
    is a finite number (so neither is 0): each is undefined when its
    smoothed DM is 0 and infinite or undefined otherwise, and [DX[i]] is 0.
    Where [TR14[i]] is finite and nonzero and the smoothed DM is finite,
    [+DI14[i] = 100 * (+DM14[i] / TR14[i])] and
    [-DI14[i] = 100 * (-DM14[i] / TR14[i])]. *)
Theorem di_division (f : frame) (H L C : list float64) (i : nat) :
  ohlc_ready f H L C ->
  i < nrows f ->
  exists f' tr14 pdm mdm pdi mdi dx t a b,
    indicators f = (inr tt, f')
    /\ float_col f' "TR14" = Some tr14
    /\ float_col f' "+DM14" = Some pdm /\ float_col f' "-DM14" = Some mdm
    /\ float_col f' "+DI14" = Some pdi /\ float_col f' "-DI14" = Some mdi
    /\ float_col f' "DX" = Some dx
    /\ tr14 !! i = Some t /\ pdm !! i = Some a /\ mdm !! i = Some b
    /\ pdi !! i = Some (mul (div a t) (of_Z 100))
    /\ mdi !! i = Some (mul (div b t) (of_Z 100))
    /\ (t = Fin 0%Qc ->
        isfinite (mul (div a t) (of_Z 100)) = false
        /\ isfinite (mul (div b t) (of_Z 100)) = false
        /\ (a = Fin 0%Qc -> pdi !! i = Some NaN)
        /\ (b = Fin 0%Qc -> mdi !! i = Some NaN)
        /\ dx !! i = Some (Fin 0%Qc))
    /\ (forall q p : Qc, t = Fin q -> q <> 0%Qc -> a = Fin p ->
          pdi !! i = Some (mul (of_Z 100) (Fin (p / q)%Qc)))
    /\ (forall q p : Qc, t = Fin q -> q <> 0%Qc -> b = Fin p ->
          mdi !! i = Some (mul (of_Z 100) (Fin (p / q)%Qc))).
Proof.
  intros Hready Hi.
  destruct (indicators_ready f H L C Hready) as (f' & Hrun & Hn' & Hind);
    [lia|].
  destruct Hready as [_ _ _ HlenH HlenL HlenC].
  destruct (lookup_lt_is_Some_2 (TR14_of H L C) i) as [t Ht].
  { by rewrite (length_TR14_of H L C (nrows f)). }
  destruct (lookup_lt_is_Some_2 (plus_DM14_of H L) i) as [a Ha].
  { by rewrite (length_plus_DM14_of H L (nrows f)). }
  destruct (lookup_lt_is_Some_2 (minus_DM14_of H L) i) as [b Hb].
  { by rewrite (length_minus_DM14_of H L (nrows f)). }
  pose proof (lookup_ratio100 _ _ _ _ _ Ha Ht) as Hp.
  pose proof (lookup_ratio100 _ _ _ _ _ Hb Ht) as Hm.
  fold (plus_DI14_of H L C) in Hp. fold (minus_DI14_of H L C) in Hm.
  pose proof (DX_of_row H L C i _ _ Hp Hm) as Hdx.
  exists f', (TR14_of H L C), (plus_DM14_of H L), (minus_DM14_of H L),
    (plus_DI14_of H L C), (minus_DI14_of H L C), (DX_of H L C), t, a, b.
  destruct Hind. do 12 (split; [done|]).
  split; [|split].
  - intros ->.
    assert (isfinite (mul (div a (Fin 0%Qc)) (of_Z 100)) = false) as Hfa
        by apply mul_nonfinite_l, div_zero_nonfinite.
    assert (isfinite (mul (div b (Fin 0%Qc)) (of_Z 100)) = false) as Hfb
        by apply mul_nonfinite_l, div_zero_nonfinite.
    split; [done|]. split; [done|]. split; [|split].
    + intros ->. by rewrite Hp.
    + intros ->. by rewrite Hm.
    + rewrite Hdx. f_equal. by apply dx_of_nonfinite_di.
  - intros q p -> Hq ->. rewrite Hp. f_equal. unfold of_Z. cbn [div mul].
    destruct (Qc_is_zero q) eqn:Hz; [by apply Qc_is_zero_true in Hz|].
    cbn [mul]. f_equal. ring.
  - intros q p -> Hq ->. rewrite Hm. f_equal. unfold of_Z. cbn [div mul].
    destruct (Qc_is_zero q) eqn:Hz; [by apply Qc_is_zero_true in Hz|].
    cbn [mul]. f_equal. ring.
Qed.

Lemma di_division_witness :
  exists f' tr14 pdm pdi t a,
    indicators rising_ohlc = (inr tt, f')
    /\ float_col f' "TR14" = Some tr14 /\ float_col f' "+DM14" = Some pdm
    /\ float_col f' "+DI14" = Some pdi
    /\ tr14 !! 20 = Some t /\ pdm !! 20 = Some a
    /\ pdi !! 20 = Some (mul (div a t) (of_Z 100)).
Proof.
  destruct (di_division rising_ohlc _ _ _ 20 rising_ohlc_ready)
    as (f' & tr14 & pdm & mdm & pdi & mdi & dx & t & a & b & Hrun & Htr & Hpdm
        & _ & Hpdi & _ & _ & Ht & Ha & _ & Hp & _).
  - vm_compute. lia.
  - exists f', tr14, pdm, pdi, t, a. repeat split; assumption.
Defined.

(** ** Missing columns (claim C6) *)







(** ** Purity (claim C10) *)

(** C10.  The outcome of [calculate_adx] -- the exception raised, or the
    contents of the frame returned -- is a function of the contents of the
    input frame alone, whatever else the heap holds and wherever the input
    lives; every object that existed before the call, the input among them,
    is unchanged by it; and a second run on the heap left by the first has
    the same outcome. *)
Theorem calculate_adx_pure (parse_float : string -> option float64)
        (str_of_float : float64 -> string)
        (h1 h2 : list frame) (l1 l2 : nat) (f0 : frame) :
  h1 !! l1 = Some f0 ->
  h2 !! l2 = Some f0 ->
  let run1 := calculate_adx parse_float str_of_float l1 h1 in
  let run2 := calculate_adx parse_float str_of_float l2 h2 in
  result_of run1 = result_of run2
  /\ (exists news, run1.2 = h1 ++ news)
  /\ run1.2 !! l1 = Some f0
  /\ result_of (calculate_adx parse_float str_of_float l1 run1.2)
     = result_of run1.
Proof.
  intros Hl1 Hl2 run1 run2.
  assert (Hpre : run1.2 = h1 ++ (calculate_adx_on parse_float str_of_float f0).2).
  { unfold run1. by rewrite (calculate_adx_unfold _ _ h1 l1 f0 Hl1). }
  assert (Hin : run1.2 !! l1 = Some f0).
  { rewrite Hpre. by apply lookup_app_l_Some. }
  split; [|split; [|split]].
  - unfold run1, run2.
    by rewrite (calculate_adx_result _ _ h1 l1 f0 Hl1),
      (calculate_adx_result _ _ h2 l2 f0 Hl2).
  - by eexists.
  - done.
  - unfold run1 at 2.
    by rewrite (calculate_adx_result _ _ _ l1 f0 Hin),
      (calculate_adx_result _ _ h1 l1 f0 Hl1).
Qed.

Lemma calculate_adx_pure_witness :
  result_of (calculate_adx no_parse no_str 0 [rising_csv])
  = result_of (calculate_adx no_parse no_str 1 [flat_csv; rising_csv])
  /\ (calculate_adx no_parse no_str 0 [rising_csv]).2 !! 0 = Some rising_csv.
Proof.
  destruct (calculate_adx_pure no_parse no_str [rising_csv]
              [flat_csv; rising_csv] 0 1 rising_csv) as (Hsame & _ & Hin & _).
  - reflexivity.
  - reflexivity.
  - split; [exact Hsame|exact Hin].
Defined.

(** ** The first row, and undefined cells (claims C8 and C5) *)

Lemma length_to_numeric parse_float c :
  length (to_numeric parse_float c) = col_length c.
Proof. destruct c; simpl; [done|apply length_fmap]. Qed.

(** On a supported input [calculate_adx] reaches [indicators] with a frame
    that is ready for it: the theorems on [indicators] apply to its runs. *)
Lemma calculate_adx_reaches_indicators
      (parse_float : string -> option float64) (f0 : frame)
      (co ch cl cc : column) :
  supported f0 co ch cl cc ->
  col_length ch = nrows f0 -> col_length cl = nrows f0 ->
  col_length cc = nrows f0 ->
  exists g0,
    coerce_ohlc parse_float (renamed f0) = (inr tt, g0)
    /\ ohlc_ready g0 (to_numeric parse_float ch) (to_numeric parse_float cl)
                  (to_numeric parse_float cc).
Proof.
  intros Hsup HlenH HlenL HlenC.
  destruct (pipeline_run parse_float (fun _ => ""%string) f0 co ch cl cc Hsup)
    as (Hco & _).
  destruct (coerced_cols_read parse_float (nrows f0) (cols (renamed f0))
              co ch cl cc) as (_ & HH & HL & HC).
  eexists. split; [exact Hco|].
  split; [exact HH|exact HL|exact HC|..]; cbn [nrows];
    by rewrite length_to_numeric.
Qed.

Lemma heap_lookup_last3 (h : list frame) f g out :
  (h ++ [f; g; out]) !! S (S (length h)) = Some out.
Proof. rewrite lookup_app_r by lia. by replace (S (S (length h)) - length h) with 2 by lia. Qed.

Lemma lookup_round_series s i :
  round_series s !! i = round6 <$> s !! i.
Proof. apply list_lookup_fmap. Qed.

Lemma round6_Fin_inv x q : x = Fin q -> exists q', round6 x = Fin q'.
Proof. intros ->. simpl. eauto. Qed.

(** The label column does not bear the name of an output column. *)
Definition label_apart (f0 : frame) : Prop :=
  forall name, name ∈ output_columns -> date_col_of f0 <> Some name.








(** The rows of a Wilder-smoothed column and of the DI columns below the
    seed index. *)
Lemma DX_of_below_seed H L C n i :
  length H = n -> length L = n -> length C = n ->
  i < N -> i < n -> DX_of H L C !! i = Some (Fin 0%Qc).
Proof.
  intros HlenH HlenL HlenC Hi Hn.
  assert (TR14_of H L C !! i = Some NaN) as Ht.
  { apply wilder_before_seed; [done|].
    by rewrite length_fillna0, (length_TR_of H L C n). }
  destruct (lookup_lt_is_Some_2 (plus_DM14_of H L) i) as [a Ha].
  { by rewrite (length_plus_DM14_of H L n). }
  destruct (lookup_lt_is_Some_2 (minus_DM14_of H L) i) as [b Hb].
  { by rewrite (length_minus_DM14_of H L n). }
  pose proof (lookup_ratio100 _ _ _ _ _ Ha Ht) as Hp.
  pose proof (lookup_ratio100 _ _ _ _ _ Hb Ht) as Hm.
  rewrite (DX_of_row H L C i _ _ Hp Hm).
  by rewrite !div_nan_r.
Qed.



(* ================================================================= *)
(** * Further properties of the three functions *)

(** ** [detect_ohlc_columns]: which header is chosen *)

Lemma dict_of_list_snoc {V} (l : list (string * V)) kv :
  Dict.of_list (l ++ [kv]) = Dict.set (Dict.of_list l) kv.1 kv.2.
Proof. unfold Dict.of_list. by rewrite foldl_app. Qed.

Lemma dict_set_elem {V} (d : list (string * V)) k v kv :
  kv ∈ Dict.set d k v -> kv = (k, v) \/ kv ∈ d.
Proof.
  induction d as [|[k' v'] d IH]; cbn [Dict.set].
  - intros Hin. apply elem_of_cons in Hin as [->|Hin]; [by left|].
    by apply elem_of_nil in Hin.
  - destruct (String.eqb k' k) eqn:Hk.
    + apply String.eqb_eq in Hk as ->. intros Hin.
      apply elem_of_cons in Hin as [->|Hin]; [by left|].
      right. apply elem_of_cons. by right.
    + intros Hin. apply elem_of_cons in Hin as [->|Hin].
      * right. apply elem_of_cons. by left.
      * destruct (IH Hin) as [->|Hd]; [by left|].
        right. apply elem_of_cons. by right.
Qed.


Lemma dict_get_Some_elem {V} (d : list (string * V)) k v :
  Dict.get d k = Some v -> (k, v) ∈ d.
Proof.
  induction d as [|[k' v'] d IH]; [done|]. cbn [Dict.get].
  destruct (String.eqb k' k) eqn:Hk.
  - apply String.eqb_eq in Hk as ->. intros [= ->]. apply elem_of_cons. by left.
  - intros Hget. apply elem_of_cons. right. by apply IH.
Qed.

Lemma dict_get_None {V} (d : list (string * V)) k :
  Dict.get d k = None <-> k ∉ d.*1.
Proof.
  induction d as [|[k' v'] d IH]; cbn [Dict.get fmap list_fmap fst].
  - split; [intros _ Hin; by apply elem_of_nil in Hin|done].
  - destruct (String.eqb k' k) eqn:Hk.
    + apply String.eqb_eq in Hk as ->. split; [done|].
      intros Hnot. exfalso. apply Hnot. apply elem_of_cons. by left.
    + apply String.eqb_neq in Hk. rewrite IH. split.
      * intros Hnot Hin. apply elem_of_cons in Hin as [->|Hin]; [done|].
        by apply Hnot.
      * intros Hnot Hin. apply Hnot. apply elem_of_cons. by right.
Qed.

(** The dict comprehension [{c.lower(): c for c in df.columns}]: a key is
    bound to the last header with that lower-cased name. *)
Lemma lower_index_get (columns : list string) (k : string) :
  Dict.get (lower_index columns) k
  = last (filter (fun c => Header.lower c = k) columns).
Proof.
  induction columns as [|c columns IH] using rev_ind; [done|].
  unfold lower_index in *. rewrite fmap_app. cbn [fmap list_fmap].
  rewrite dict_of_list_snoc. cbn [fst snd]. rewrite dict_get_set, IH.
  rewrite filter_app, filter_cons, filter_nil.
  destruct (String.eqb (Header.lower c) k) eqn:Hk.
  - apply String.eqb_eq in Hk. rewrite decide_True by done.
    by rewrite last_snoc.
  - apply String.eqb_neq in Hk. rewrite decide_False by done.
    by rewrite app_nil_r.
Qed.

Lemma last_filter_elem {A} (P : A -> Prop) `{forall x, Decision (P x)}
      (l : list A) (x : A) :
  last (filter P l) = Some x -> x ∈ l /\ P x.
Proof.
  intros Hlast. apply last_Some in Hlast as [l' Hl].
  assert (x ∈ filter P l) as Hin.
  { rewrite Hl. apply elem_of_app. right. apply elem_of_cons. by left. }
  by apply list_elem_of_filter in Hin as [? ?].
Qed.

Lemma last_filter_None {A} (P : A -> Prop) `{forall x, Decision (P x)}
      (l : list A) :
  last (filter P l) = None <-> forall x, x ∈ l -> ~ P x.
Proof.
  rewrite last_None. split.
  - intros Hnil x Hin HP.
    assert (x ∈ filter P l) as Hx by (by apply list_elem_of_filter).
    rewrite Hnil in Hx. by apply elem_of_nil in Hx.
  - intros Hall. destruct (filter P l) as [|x l'] eqn:Hf; [done|].
    assert (x ∈ filter P l) as Hx by (rewrite Hf; apply elem_of_cons; by left).
    apply list_elem_of_filter in Hx as [HP Hin]. by destruct (Hall x Hin).
Qed.

(** Every item of the index is a header under its lower-cased name, and
    every header has its lower-cased name among the keys. *)
Lemma lower_index_items (columns : list string) (kl orig : string) :
  (kl, orig) ∈ lower_index columns -> orig ∈ columns /\ Header.lower orig = kl.
Proof.
  induction columns as [|c columns IH] using rev_ind.
  - intros Hin. by apply elem_of_nil in Hin.
  - unfold lower_index in *. rewrite fmap_app. cbn [fmap list_fmap].
    rewrite dict_of_list_snoc. cbn [fst snd]. intros Hin.
    apply dict_set_elem in Hin as [[= -> ->]|Hin].
    + split; [|done]. apply elem_of_app. right. apply elem_of_cons. by left.
    + destruct (IH Hin) as [Hc Hl]. split; [|done].
      apply elem_of_app. by left.
Qed.

Lemma lower_index_keys (columns : list string) (c : string) :
  c ∈ columns -> Header.lower c ∈ (lower_index columns).*1.
Proof.
  intros Hc.
  destruct (Dict.get (lower_index columns) (Header.lower c)) as [v|] eqn:Hget.
  - apply dict_get_Some_elem in Hget.
    apply list_elem_of_fmap. by exists (Header.lower c, v).
  - rewrite lower_index_get in Hget.
    apply (last_filter_None (fun c0 => Header.lower c0 = Header.lower c)) with (x := c) in Hget;
      [done|done].
Qed.


Lemma first_substring_Some key items orig :
  first_substring key items = Some orig ->
  exists kl, (kl, orig) ∈ items /\ Header.contains key kl = true.
Proof.
  induction items as [|[kl o] items IH]; [done|]. cbn [first_substring].
  destruct (Header.contains key kl) eqn:Hc.
  - intros [= ->]. exists kl. split; [|done]. apply elem_of_cons. by left.
  - intros Hf. destruct (IH Hf) as (kl' & Hin & Hc').
    exists kl'. split; [|done]. apply elem_of_cons. by right.
Qed.

Lemma first_substring_None key (items : list (string * string)) :
  first_substring key items = None
  <-> forall kl, kl ∈ items.*1 -> Header.contains key kl = false.
Proof.
  induction items as [|[kl o] items IH]; cbn [first_substring fmap list_fmap fst].
  - split; [|done]. intros _ kl Hin. by apply elem_of_nil in Hin.
  - destruct (Header.contains key kl) eqn:Hc.
    + split; [done|]. intros Hall.
      rewrite Hall in Hc; [done|]. apply elem_of_cons. by left.
    + rewrite IH. split.
      * intros Hall kl' Hin. apply elem_of_cons in Hin as [->|Hin]; [done|].
        by apply Hall.
      * intros Hall kl' Hin. apply Hall. apply elem_of_cons. by right.
Qed.


Lemma lower_empty_inv c : Header.lower c = ""%string -> c = ""%string.
Proof. by destruct c. Qed.

(** The candidate names of a key: the key itself, then its first letter. *)
Lemma candidates_get key opts :
  Dict.get candidates key = Some opts ->
  (key = "open" /\ opts = ["open"; "o"]
   \/ key = "high" /\ opts = ["high"; "h"]
   \/ key = "low" /\ opts = ["low"; "l"]
   \/ key = "close" /\ opts = ["close"; "c"])%string.
Proof.
  change candidates
    with [("open", ["open"; "o"]); ("high", ["high"; "h"]);
          ("low", ["low"; "l"]); ("close", ["close"; "c"])]%string.
  cbn [Dict.get].
  destruct (String.eqb "open" key) eqn:H1;
    [apply String.eqb_eq in H1 as <-; intros [= <-]; auto|].
  destruct (String.eqb "high" key) eqn:H2;
    [apply String.eqb_eq in H2 as <-; intros [= <-]; auto|].
  destruct (String.eqb "low" key) eqn:H3;
    [apply String.eqb_eq in H3 as <-; intros [= <-]; auto|].
  destruct (String.eqb "close" key) eqn:H4;
    [apply String.eqb_eq in H4 as <-; intros [= <-]; auto 6|].
  done.
Qed.

Lemma detect_ohlc_columns_get (columns : list string) key :
  Dict.get (detect_ohlc_columns columns) key
  = (fun opts => detect_key (lower_index columns) key opts)
      <$> Dict.get candidates key.
Proof.
  change candidates
    with [("open", ["open"; "o"]); ("high", ["high"; "h"]);
          ("low", ["low"; "l"]); ("close", ["close"; "c"])]%string.
  change (detect_ohlc_columns columns)
    with [("open", detect_key (lower_index columns) "open" ["open"; "o"]);
          ("high", detect_key (lower_index columns) "high" ["high"; "h"]);
          ("low", detect_key (lower_index columns) "low" ["low"; "l"]);
          ("close", detect_key (lower_index columns) "close" ["close"; "c"])]%string.
  cbn [Dict.get].
  destruct (String.eqb "open" key) eqn:H1;
    [by apply String.eqb_eq in H1 as <-|].
  destruct (String.eqb "high" key) eqn:H2;
    [by apply String.eqb_eq in H2 as <-|].
  destruct (String.eqb "low" key) eqn:H3;
    [by apply String.eqb_eq in H3 as <-|].
  destruct (String.eqb "close" key) eqn:H4;
    [by apply String.eqb_eq in H4 as <-|].
  done.
Qed.

(** The first candidate name that is the lower-cased name of a header. *)
Lemma first_option_Some (columns : list string) opts c :
  first_option (lower_index columns) opts = Some c ->
  exists opt, opt ∈ opts
    /\ last (filter (fun c0 => Header.lower c0 = opt) columns) = Some c.
Proof.
  induction opts as [|opt opts IH]; [done|]. cbn [first_option].
  unfold Dict.mem.
  destruct (Dict.get (lower_index columns) opt) as [v|] eqn:Hget.
  - intros [= ->]. exists opt. split; [apply elem_of_cons; by left|].
    by rewrite <- lower_index_get.
  - intros Hf. destruct (IH Hf) as (opt' & Hin & Hl).
    exists opt'. split; [apply elem_of_cons; by right|done].
Qed.

Lemma first_option_None (columns : list string) opts :
  first_option (lower_index columns) opts = None
  <-> forall c, c ∈ columns -> Header.lower c ∉ opts.
Proof.
  induction opts as [|opt opts IH]; cbn [first_option].
  - split; [|done]. intros _ c _ Hin. by apply elem_of_nil in Hin.
  - unfold Dict.mem.
    destruct (Dict.get (lower_index columns) opt) as [v|] eqn:Hget.
    + split; [done|]. intros Hall. rewrite lower_index_get in Hget.
      apply (last_filter_elem (fun c0 => Header.lower c0 = opt)) in Hget
        as [Hin Hl].
      exfalso. apply (Hall v Hin). apply elem_of_cons. by left.
    + rewrite IH. rewrite lower_index_get in Hget.
      pose proof (proj1 (last_filter_None
                           (fun c0 => Header.lower c0 = opt) columns) Hget)
        as Hno.
      split.
      * intros Hall c Hin Hopt. apply elem_of_cons in Hopt as [Heq|Hopt].
        -- by apply (Hno c Hin).
        -- by apply (Hall c Hin).
      * intros Hall c Hin Hopt. apply (Hall c Hin). apply elem_of_cons.
        by right.
Qed.

Lemma first_option_truthy (columns : list string) opts c :
  ""%string ∉ opts ->
  first_option (lower_index columns) opts = Some c ->
  truthy (Some c) = true.
Proof.
  intros Hne Hf. destruct (first_option_Some _ _ _ Hf) as (opt & Hin & Hl).
  apply (last_filter_elem (fun c0 => Header.lower c0 = opt)) in Hl as [_ Hl].
  cbn [truthy]. apply negb_true_iff, String.eqb_neq. intros ->.
  cbn in Hl. by subst opt.
Qed.

Lemma candidates_nonempty key opts :
  Dict.get candidates key = Some opts -> ""%string ∉ opts.
Proof.
  intros Hc Hin.
  destruct (candidates_get key opts Hc) as [[_ ->]|[[_ ->]|[[_ ->]|[_ ->]]]];
    repeat (apply elem_of_cons in Hin as [Hin|Hin]; [discriminate Hin|]);
    by apply elem_of_nil in Hin.
Qed.

(** A header found by [detect_key] is a header of the table whose
    lower-cased name is a candidate name or contains the key. *)
Lemma detect_key_match (columns : list string) (key c : string)
      (opts : list string) :
  ""%string ∉ opts ->
  detect_key (lower_index columns) key opts = Some c ->
  c ∈ columns
  /\ (Header.lower c ∈ opts \/ Header.contains key (Header.lower c) = true).
Proof.
  intros Hne Hdet. unfold detect_key in Hdet.
  destruct (first_option (lower_index columns) opts) as [c0|] eqn:Hfirst.
  - rewrite (first_option_truthy columns opts c0) in Hdet by done.
    injection Hdet as ->.
    destruct (first_option_Some _ _ _ Hfirst) as (opt & Hin & Hl).
    apply (last_filter_elem (fun c0 => Header.lower c0 = opt)) in Hl as [Hc Hl].
    split; [done|]. left. by rewrite Hl.
  - cbn [truthy] in Hdet.
    destruct (first_substring key (lower_index columns)) as [orig|] eqn:Hsub;
      [|done].
    injection Hdet as ->.
    destruct (first_substring_Some _ _ _ Hsub) as (kl & Hin & Hc).
    apply lower_index_items in Hin as [Hin <-]. split; [done|]. by right.
Qed.

(** X1.  A header that [detect_ohlc_columns] assigns to a key is a header of
    the table, and its lower-cased name is one of the candidate names of
    the key or contains the key. *)
Theorem detected_label_is_header (columns : list string) (key c : string)
        (opts : list string) :
  Dict.get candidates key = Some opts ->
  Dict.get (detect_ohlc_columns columns) key = Some (Some c) ->
  c ∈ columns
  /\ (Header.lower c ∈ opts \/ Header.contains key (Header.lower c) = true).
Proof.
  intros Hopts. rewrite detect_ohlc_columns_get, Hopts.
  cbn [fmap option_fmap option_map]. intros [= Hdet].
  apply (detect_key_match columns key c opts); [|exact Hdet].
  by eapply candidates_nonempty.
Qed.

Lemma detected_label_is_header_witness :
  "HIGH"%string ∈ ["Date"; "open"; "HIGH"; "Low"; "c"]%string
  /\ (Header.lower "HIGH" ∈ ["high"; "h"]%string
      \/ Header.contains "high" (Header.lower "HIGH") = true).
Proof.
  apply (detected_label_is_header ["Date"; "open"; "HIGH"; "Low"; "c"]%string
           "high" "HIGH" ["high"; "h"]%string); reflexivity.
Defined.

(** X2.  A key is left unidentified exactly when no header of the table has
    a lower-cased name that is a candidate name of the key or contains the
    key. *)
Theorem undetected_iff_no_match (columns : list string) (key : string)
        (opts : list string) :
  Dict.get candidates key = Some opts ->
  Dict.get (detect_ohlc_columns columns) key = Some None
  <-> forall c, c ∈ columns ->
        (Header.lower c ∉ opts) /\ Header.contains key (Header.lower c) = false.
Proof.
  intros Hopts. rewrite detect_ohlc_columns_get, Hopts.
  cbn [fmap option_fmap option_map]. unfold detect_key.
  destruct (first_option (lower_index columns) opts) as [c0|] eqn:Hfirst.
  - rewrite (first_option_truthy columns opts c0);
      [|by eapply candidates_nonempty|done].
    split; [done|]. intros Hall.
    destruct (first_option_Some _ _ _ Hfirst) as (opt & Hin & Hl).
    apply (last_filter_elem (fun c0 => Header.lower c0 = opt)) in Hl as [Hc Hl].
    destruct (Hall c0 Hc) as [Hno _]. exfalso. apply Hno. by rewrite Hl.
  - cbn [truthy]. pose proof (proj1 (first_option_None columns opts) Hfirst) as Hno.
    destruct (first_substring key (lower_index columns)) as [orig|] eqn:Hsub.
    + split; [done|]. intros Hall.
      destruct (first_substring_Some _ _ _ Hsub) as (kl & Hin & Hc).
      apply lower_index_items in Hin as [Hin <-].
      destruct (Hall orig Hin) as [_ Hfalse]. congruence.
    + split; [|done]. intros _ c Hin. split; [by apply Hno|].
      apply (proj1 (first_substring_None key (lower_index columns)) Hsub).
      by apply lower_index_keys.
Qed.

Lemma undetected_iff_no_match_witness :
  Dict.get (detect_ohlc_columns ["Date"; "Open"; "High"]%string) "low"
  = Some None.
Proof.
  apply (undetected_iff_no_match ["Date"; "Open"; "High"]%string "low"
           ["low"; "l"]%string); [reflexivity|].
  intros c Hin.
  repeat (apply elem_of_cons in Hin as [->|Hin];
          [(split; [by_eval|reflexivity])|]).
  by apply elem_of_nil in Hin.
Defined.

Lemma first_option_at (lower : list (string * string)) opts j opt c :
  opts !! j = Some opt ->
  (forall j' opt', j' < j -> opts !! j' = Some opt' -> Dict.get lower opt' = None) ->
  Dict.get lower opt = Some c ->
  first_option lower opts = Some c.
Proof.
  revert j. induction opts as [|o opts IH]; intros j Hj Hbefore Hget; [done|].
  cbn [first_option]. unfold Dict.mem. destruct j as [|j].
  - injection Hj as ->. by rewrite Hget.
  - rewrite (Hbefore 0 o) by (done || lia).
    apply (IH j); [done| |done].
    intros j' opt' Hlt Hopt'. apply (Hbefore (S j') opt'); [lia|done].
Qed.

(** X3.  The candidate names of a key are tried in order -- the key, then
    its first letter -- before any substring match: when a header has the
    lower-cased name of a candidate and no header has that of an earlier
    candidate, the key is assigned the last header with that lower-cased
    name, whatever the other headers are. *)
Theorem candidate_name_wins (columns : list string) (key : string)
        (opts : list string) (j : nat) (opt c : string) :
  Dict.get candidates key = Some opts ->
  opts !! j = Some opt ->
  (forall j' opt' c', j' < j -> opts !! j' = Some opt' -> c' ∈ columns ->
                      Header.lower c' <> opt') ->
  last (filter (fun c0 => Header.lower c0 = opt) columns) = Some c ->
  Dict.get (detect_ohlc_columns columns) key = Some (Some c).
Proof.
  intros Hopts Hj Hbefore Hlast.
  rewrite detect_ohlc_columns_get, Hopts. cbn [fmap option_fmap option_map].
  f_equal. unfold detect_key.
  assert (first_option (lower_index columns) opts = Some c) as Hfirst.
  { apply (first_option_at _ _ j opt); [done| |by rewrite lower_index_get].
    intros j' opt' Hlt Hopt'. rewrite lower_index_get.
    apply (last_filter_None (fun c0 => Header.lower c0 = opt')).
    intros c' Hc'. by apply (Hbefore j' opt' c'). }
  rewrite Hfirst.
  by rewrite (first_option_truthy columns opts c)
    by (by eapply candidates_nonempty || done).
Qed.

Lemma candidate_name_wins_witness :
  Dict.get (detect_ohlc_columns ["Reopened"; "o"; "OPEN"; "Open"]%string) "open"
  = Some (Some "Open"%string).
Proof.
  apply (candidate_name_wins ["Reopened"; "o"; "OPEN"; "Open"]%string "open"
           ["open"; "o"]%string 0 "open"%string "Open"%string);
    [reflexivity|reflexivity|intros; lia|reflexivity].
Defined.



From Stdlib Require Import Lqa.

(* ================================================================= *)
(** ** Ranges of the indicator columns on finite prices *)

(** Inequalities between rationals in canonical form are proved on their
    underlying fractions. *)
Ltac qc_to_q :=
  unfold Qcle, Qclt, Qcdiv, Qcminus, Qcinv, Qcopp, Qcplus, Qcmult in *;
  cbn [this Q2Qc] in *; rewrite ?Qred_correct in *.

(** [x] is a finite number that is not negative. *)
Definition nonneg (x : float64) : Prop := exists q, x = Fin q /\ (0 <= q)%Qc.

(** [x] is a finite number between the integers [lo] and [hi]. *)
Definition between (lo hi : Z) (x : float64) : Prop :=
  exists q, x = Fin q
            /\ (Q2Qc (inject_Z lo) <= q)%Qc /\ (q <= Q2Qc (inject_Z hi))%Qc.

Definition all_finite (s : list float64) : Prop :=
  Forall (fun x => isfinite x = true) s.

Lemma all_finite_lookup s i :
  all_finite s -> i < length s -> exists q, s !! i = Some (Fin q).
Proof.
  intros Hs Hi. destruct (lookup_lt_is_Some_2 s i Hi) as [x Hx].
  pose proof (proj1 (Forall_lookup _ s) Hs i x Hx) as Hfin.
  destruct x as [| |q]; try discriminate Hfin. by exists q.
Qed.

Lemma Qinv_14 : (/ inject_Z 14 == 1 # 14)%Q.
Proof. reflexivity. Qed.

Lemma nonneg_zero : nonneg (Fin 0%Qc).
Proof. exists 0%Qc. split; [done|]. apply Qcle_refl. Qed.

Lemma nonneg_add x y : nonneg x -> nonneg y -> nonneg (add x y).
Proof.
  intros (p & -> & Hp) (q & -> & Hq). exists (p + q)%Qc. split; [done|].
  qc_to_q. lra.
Qed.

Lemma nansum_acc_nonneg s acc :
  nonneg acc -> Forall nonneg s ->
  nonneg (foldl (fun a x => if isnan x then a else add a x) acc s).
Proof.
  intros Hacc Hs. revert acc Hacc.
  induction Hs as [|x s Hx _ IH]; intros acc Hacc; cbn [foldl]; [done|].
  apply IH. destruct Hx as (q & -> & Hq). cbn [isnan].
  apply nonneg_add; [done|]. by exists q.
Qed.

Lemma wilder_next_nonneg prev x :
  nonneg prev -> nonneg x -> nonneg (wilder_next N prev x).
Proof.
  intros (p & -> & Hp) (q & -> & Hq).
  unfold wilder_next, of_nat, of_Z. cbn [div]. rewrite N_nonzero.
  cbn [sub add]. eexists. split; [reflexivity|].
  change (Z.of_nat N) with 14%Z. qc_to_q. rewrite Qinv_14. lra.
Qed.

(** From the seed index on, Wilder's sum of a column of finite numbers that
    are not negative is a finite number that is not negative. *)
Lemma wilder_nonneg ser i :
  Forall nonneg ser -> N <= i < length ser ->
  exists q, wilder_sum_excel_style ser N !! i = Some (Fin q) /\ (0 <= q)%Qc.
Proof.
  intros Hser [Hi Hlen].
  replace i with (N + (i - N)) in * by lia.
  generalize dependent (i - N). clear i. intros k _ Hk.
  induction k as [|k IH].
  - rewrite Nat.add_0_r in *. rewrite wilder_seed by done.
    destruct (nansum_acc_nonneg (slice 1 (N + 1) ser) (Fin 0%Qc))
      as (q & Hq & Hpos); [apply nonneg_zero| |].
    + unfold slice. by apply Forall_take, Forall_drop.
    + exists q. split; [|done]. f_equal. exact Hq.
  - destruct IH as (p & Hp & Hpos); [lia|].
    rewrite wilder_after_seed by lia.
    replace (N + S k - 1) with (N + k) by lia.
    rewrite (list_lookup_total_correct _ _ _ Hp).
    destruct (lookup_lt_is_Some_2 ser (N + S k)) as [x Hx]; [lia|].
    rewrite (list_lookup_total_correct _ _ _ Hx).
    destruct (wilder_next_nonneg (Fin p) x) as (q & Hq & Hqpos).
    + by exists p.
    + exact (proj1 (Forall_lookup _ ser) Hser _ _ Hx).
    + exists q. split; [|done]. f_equal. exact Hq.
Qed.

Lemma dm_value_nonneg (u d : Qc) :
  nonneg (if gt (Fin u) (Fin d) && gt (Fin u) (Fin 0%Qc) then Fin u
          else Fin 0%Qc).
Proof.
  destruct (gt (Fin u) (Fin d) && gt (Fin u) (Fin 0%Qc)) eqn:Hgt;
    [|apply nonneg_zero].
  apply andb_true_iff in Hgt as [_ Hpos]. cbn [gt] in Hpos.
  apply Qc_ltb_lt in Hpos. exists u. split; [done|]. by apply Qclt_le_weak.
Qed.

Lemma between_zero lo hi : (lo <= 0)%Z -> (0 <= hi)%Z -> between lo hi (Fin 0%Qc).
Proof.
  intros Hlo Hhi. exists 0%Qc. split; [done|]. qc_to_q.
  split; [change 0%Q with (inject_Z 0)|change 0%Q with (inject_Z 0)];
    by rewrite <- Zle_Qle.
Qed.

Lemma Qc_is_zero_false_pos (t : Qc) :
  (0 <= t)%Qc -> Qc_is_zero t = false -> (0 < t)%Qc.
Proof.
  intros Hpos Hz. destruct (Qcle_lt_or_eq _ _ Hpos) as [Hlt|Heq]; [done|].
  assert (Qc_is_zero t = true) by (by apply Qc_is_zero_true). congruence.
Qed.

Lemma hundred_nonzero : Qc_is_zero (Q2Qc (inject_Z 100)) = false.
Proof. by vm_compute. Qed.

(** [(a / t) * 100] for [a >= 0] and [t > 0]. *)
Lemma di_value (a t : Qc) :
  (0 <= a)%Qc -> (0 < t)%Qc ->
  mul (div (Fin a) (Fin t)) (of_Z 100) = Fin (a / t * Q2Qc (inject_Z 100))
  /\ (0 <= a / t * Q2Qc (inject_Z 100))%Qc.
Proof.
  intros Ha Ht. split.
  - cbn [div]. destruct (Qc_is_zero t) eqn:Hz; [|done].
    apply Qc_is_zero_true in Hz. subst t. exfalso. revert Ht. apply Qcle_not_lt, Qcle_refl.
  - qc_to_q. pose proof (Qinv_lt_0_compat _ Ht). unfold inject_Z. nra.
Qed.

(** [(a / t) * 100] is never negative when [a] and [t] are not. *)
Lemma di_value_not_negative (a t : Qc) :
  (0 <= a)%Qc -> (0 <= t)%Qc ->
  gt (Fin 0%Qc) (mul (div (Fin a) (Fin t)) (of_Z 100)) = false.
Proof.
  intros Ha Ht. destruct (Qc_is_zero t) eqn:Hz.
  - cbn [div]. rewrite Hz. destruct (Qc_is_zero a) eqn:Hza; [done|].
    assert (Qc_is_neg a = false) as ->.
    { apply Qc_ltb_ge. exact Ha. }
    cbn [mul of_Z]. by rewrite hundred_nonzero.
  - destruct (di_value a t Ha (Qc_is_zero_false_pos t Ht Hz)) as [-> Hpos].
    cbn [gt]. by apply Qc_ltb_ge.
Qed.

Lemma Qc_abs_bound (p m : Qc) :
  (0 <= p)%Qc -> (0 <= m)%Qc ->
  (0 <= Qc_abs (p - m))%Qc /\ (Qc_abs (p - m) <= p + m)%Qc.
Proof.
  intros Hp Hm. split; [apply Qc_abs_nonneg|].
  unfold Qc_abs, Qc_is_neg. destruct (Qc_ltb (p - m) 0) eqn:Hneg.
  - qc_to_q. lra.
  - qc_to_q. lra.
Qed.

(** The DX cell computed from two DI values that are finite and not
    negative lies between 0 and 100. *)
Lemma dx_value_between (p m : Qc) :
  (0 <= p)%Qc -> (0 <= m)%Qc ->
  between 0 100
    (if isfinite (mul (div (abs (sub (Fin p) (Fin m))) (add (Fin p) (Fin m)))
                      (of_Z 100))
     then mul (div (abs (sub (Fin p) (Fin m))) (add (Fin p) (Fin m))) (of_Z 100)
     else Fin 0%Qc).
Proof.
  intros Hp Hm. destruct (Qc_abs_bound p m Hp Hm) as [Hd Hds].
  cbn [sub abs add div]. set (d := Qc_abs (p - m)) in *.
  destruct (Qc_is_zero (p + m)) eqn:Hz.
  - destruct (Qc_is_zero d); [by apply between_zero|].
    cbn [mul of_Z]. rewrite hundred_nonzero. cbn [isfinite].
    by apply between_zero.
  - assert (0 < p + m)%Qc as Hs.
    { apply Qc_is_zero_false_pos; [|done]. qc_to_q. lra. }
    cbn [mul of_Z isfinite]. eexists. split; [reflexivity|].
    set (s := (p + m)%Qc) in *. clearbody d s. clear Hz Hp Hm p m.
    qc_to_q. pose proof (Qinv_lt_0_compat _ Hs).
    assert (s * / s == 1)%Q by (apply Qmult_inv_r; lra).
    unfold inject_Z. split; nra.
Qed.

(** The DX cell computed from the smoothed values [a], [b] and [t] of a
    row. *)
Lemma dx_cell_between (a b t : Qc) :
  (0 <= a)%Qc -> (0 <= b)%Qc -> (0 <= t)%Qc ->
  let x := mul (div (Fin a) (Fin t)) (of_Z 100) in
  let y := mul (div (Fin b) (Fin t)) (of_Z 100) in
  between 0 100
    (if isfinite (mul (div (abs (sub x y)) (add x y)) (of_Z 100))
     then mul (div (abs (sub x y)) (add x y)) (of_Z 100)
     else Fin 0%Qc).
Proof.
  intros Ha Hb Ht x y. destruct (Qc_is_zero t) eqn:Hz.
  - apply Qc_is_zero_true in Hz. subst t.
    rewrite dx_of_nonfinite_di; [by apply between_zero| |].
    + apply mul_nonfinite_l, div_zero_nonfinite.
    + apply mul_nonfinite_l, div_zero_nonfinite.
  - pose proof (Qc_is_zero_false_pos t Ht Hz) as Hpos.
    destruct (di_value a t Ha Hpos) as [Hx Hxpos].
    destruct (di_value b t Hb Hpos) as [Hy Hypos].
    subst x y. rewrite Hx, Hy. by apply dx_value_between.
Qed.

Lemma fourteen_nonzero : Qc_is_zero (Q2Qc (inject_Z (Z.of_nat 14))) = false.
Proof. by vm_compute. Qed.

Lemma adx_next_between prev x :
  between 0 100 prev -> between 0 100 x -> between 0 100 (adx_next N prev x).
Proof.
  intros (p & -> & Hp0 & Hp1) (q & -> & Hq0 & Hq1).
  unfold adx_next, of_nat, of_Z. cbn [mul add div].
  rewrite N_nonzero. eexists. split; [reflexivity|].
  change (Z.of_nat N) with 14%Z. change (Z.of_nat (N - 1)) with 13%Z.
  qc_to_q. rewrite Qinv_14. unfold inject_Z in *. split; lra.
Qed.

(** The sum of [k] numbers between 0 and 100 lies between 0 and [100 k]. *)
Lemma sum_between (s : list float64) (acc : Qc) :
  Forall (between 0 100) s ->
  exists q, foldl add (Fin acc) s = Fin q
            /\ (acc <= q)%Qc
            /\ (q <= acc + Q2Qc (inject_Z (100 * Z.of_nat (length s))))%Qc.
Proof.
  intros Hs. revert acc.
  induction Hs as [|x s (v & -> & Hv0 & Hv1) _ IH]; intros acc.
  - exists acc. split; [done|]. cbn [length]. qc_to_q.
    change (inject_Z (100 * Z.of_nat 0)) with 0%Q. split; lra.
  - cbn [foldl add]. destruct (IH (acc + v)%Qc) as (q & Hq & Hlo & Hhi).
    exists q. split; [done|]. cbn [length].
    replace (100 * Z.of_nat (S (length s)))%Z
      with (100 * Z.of_nat (length s) + 100)%Z by lia.
    qc_to_q. rewrite inject_Z_plus. unfold inject_Z in Hv0, Hv1.
    change (inject_Z 100) with (100 # 1)%Q. split; lra.
Qed.

Lemma between_not_nan lo hi x : between lo hi x -> isnan x = false.
Proof. by intros (q & -> & _). Qed.

Lemma mean_between (s : list float64) :
  length s = N -> Forall (between 0 100) s -> between 0 100 (mean s).
Proof.
  intros Hlen Hs. rewrite mean_no_nan.
  - destruct (sum_between s 0%Qc Hs) as (q & -> & Hlo & Hhi).
    rewrite Hlen in *. unfold of_nat, of_Z. cbn [div]. rewrite N_nonzero.
    eexists. split; [reflexivity|].
    change (Z.of_nat N) with 14%Z in *.
    change (100 * 14)%Z with 1400%Z in Hhi.
    qc_to_q. rewrite Qinv_14. unfold inject_Z in *. split; lra.
  - intros ->. discriminate Hlen.
  - eapply Forall_impl; [exact Hs|]. intros x. apply between_not_nan.
Qed.

(** The ADX column over a DX column of numbers between 0 and 100. *)
Lemma adx_from_dx_between (dx : list float64) (len i : nat) :
  length dx = len -> Forall (between 0 100) dx ->
  2 * N - 1 <= i < len ->
  exists v, adx_from_dx N len dx !! i = Some v /\ between 0 100 v.
Proof.
  intros Hlen Hdx [Hi Hn].
  replace i with (2 * N - 1 + (i - (2 * N - 1))) in * by lia.
  generalize dependent (i - (2 * N - 1)). clear i. intros k _ Hk.
  induction k as [|k IH].
  - rewrite Nat.add_0_r in *. rewrite adx_seed by done.
    eexists. split; [reflexivity|]. apply mean_between.
    + rewrite length_slice by (unfold N in *; lia). unfold N. lia.
    + unfold slice. by apply Forall_take, Forall_drop.
  - destruct IH as (p & Hp & Hpb); [lia|].
    rewrite adx_after_seed by lia.
    replace (2 * N - 1 + S k - 1) with (2 * N - 1 + k) by (unfold N; lia).
    rewrite (list_lookup_total_correct _ _ _ Hp).
    destruct (lookup_lt_is_Some_2 dx (2 * N - 1 + S k)) as [x Hx]; [lia|].
    rewrite (list_lookup_total_correct _ _ _ Hx).
    eexists. split; [reflexivity|]. apply adx_next_between; [done|].
    exact (proj1 (Forall_lookup _ dx) Hdx _ _ Hx).
Qed.

Section finite_prices.

Variables (H L C : list float64) (n : nat).
Hypothesis HlenH : length H = n.
Hypothesis HlenL : length L = n.
Hypothesis HlenC : length C = n.
Hypothesis HfinH : all_finite H.
Hypothesis HfinL : all_finite L.
Hypothesis HfinC : all_finite C.

Lemma TR_of_nonneg i :
  i < n -> 0 < i -> exists t, TR_of H L C !! i = Some (Fin t) /\ (0 <= t)%Qc.
Proof using HlenH HlenL HlenC HfinH HfinL HfinC.
  intros Hi Hpos. destruct i as [|j]; [lia|].
  destruct (all_finite_lookup H (S j) HfinH) as [h Hh]; [lia|].
  destruct (all_finite_lookup L (S j) HfinL) as [l Hl]; [lia|].
  destruct (all_finite_lookup C j HfinC) as [c Hc]; [lia|].
  rewrite (TR_of_row H L C n HlenH HlenL HlenC j _ _ _ Hh Hl Hc).
  cbn [sub abs]. rewrite !nanmax2_Fin. eexists. split; [reflexivity|].
  destruct (Qc_max_spec (Qc_max (h - l) (Qc_abs (h - c))) (Qc_abs (l - c)))
    as (_ & Hd & _).
  eapply Qcle_trans; [|exact Hd]. apply Qc_abs_nonneg.
Qed.

Lemma plus_DM1_of_nonneg i :
  i < n -> 0 < i -> exists p, plus_DM1_of H L !! i = Some (Fin p) /\ (0 <= p)%Qc.
Proof using HlenH HlenL HfinH HfinL.
  clear HlenC HfinC.
  intros Hi Hpos. destruct i as [|j]; [lia|].
  destruct (all_finite_lookup H (S j) HfinH) as [h Hh]; [lia|].
  destruct (all_finite_lookup H j HfinH) as [h' Hh']; [lia|].
  destruct (all_finite_lookup L (S j) HfinL) as [l Hl]; [lia|].
  destruct (all_finite_lookup L j HfinL) as [l' Hl']; [lia|].
  pose proof (UpMove_of_row H n HlenH j _ _ Hh Hh') as Hu.
  pose proof (DownMove_of_row L n HlenL j _ _ Hl Hl') as Hd.
  rewrite (plus_DM1_of_row H L j _ _ Hu Hd). cbn [sub].
  destruct (dm_value_nonneg (h - h') (l' - l)) as (p & -> & Hp). by exists p.
Qed.

Lemma minus_DM1_of_nonneg i :
  i < n -> 0 < i -> exists p, minus_DM1_of H L !! i = Some (Fin p) /\ (0 <= p)%Qc.
Proof using HlenH HlenL HfinH HfinL.
  clear HlenC HfinC.
  intros Hi Hpos. destruct i as [|j]; [lia|].
  destruct (all_finite_lookup H (S j) HfinH) as [h Hh]; [lia|].
  destruct (all_finite_lookup H j HfinH) as [h' Hh']; [lia|].
  destruct (all_finite_lookup L (S j) HfinL) as [l Hl]; [lia|].
  destruct (all_finite_lookup L j HfinL) as [l' Hl']; [lia|].
  pose proof (UpMove_of_row H n HlenH j _ _ Hh Hh') as Hu.
  pose proof (DownMove_of_row L n HlenL j _ _ Hl Hl') as Hd.
  rewrite (minus_DM1_of_row H L j _ _ Hu Hd). cbn [sub].
  destruct (dm_value_nonneg (l' - l) (h - h')) as (p & -> & Hp). by exists p.
Qed.

(** A raw column whose row 0 is blank and whose later rows are finite and
    not negative is, once its blanks are read as 0, finite and not negative
    throughout. *)
Lemma fillna0_nonneg (s : list float64) :
  length s = n ->
  (forall i, i < n -> 0 < i -> exists p, s !! i = Some (Fin p) /\ (0 <= p)%Qc) ->
  (n <> 0 -> s !! 0 = Some NaN) ->
  Forall nonneg (fillna0 s).
Proof.
  clear. intros Hlen Hrows Hrow0. apply Forall_lookup. intros i x Hx.
  assert (i < n) as Hi.
  { rewrite <- Hlen, <- length_fillna0. by eapply lookup_lt_Some. }
  rewrite lookup_fillna0 in Hx. destruct i as [|j].
  - rewrite Hrow0 in Hx by lia. injection Hx as <-. apply nonneg_zero.
  - destruct (Hrows (S j)) as (p & Hp & Hpos); [lia|lia|].
    rewrite Hp in Hx. injection Hx as <-. by exists p.
Qed.

Lemma TR14_of_nonneg i :
  N <= i < n -> exists t, TR14_of H L C !! i = Some (Fin t) /\ (0 <= t)%Qc.
Proof using HlenH HlenL HlenC HfinH HfinL HfinC.
  intros Hi. apply wilder_nonneg.
  - apply fillna0_nonneg; [by apply length_TR_of|exact TR_of_nonneg|].
    by apply TR_of_row0.
  - by rewrite length_fillna0, (length_TR_of H L C n).
Qed.

Lemma plus_DM14_of_nonneg i :
  N <= i < n -> exists a, plus_DM14_of H L !! i = Some (Fin a) /\ (0 <= a)%Qc.
Proof using HlenH HlenL HfinH HfinL.
  clear HlenC HfinC.
  intros Hi. apply wilder_nonneg.
  - apply fillna0_nonneg; [by apply length_plus_DM1_of|exact plus_DM1_of_nonneg|].
    by apply plus_DM1_of_row0.
  - by rewrite length_fillna0, (length_plus_DM1_of H L n).
Qed.

Lemma minus_DM14_of_nonneg i :
  N <= i < n -> exists a, minus_DM14_of H L !! i = Some (Fin a) /\ (0 <= a)%Qc.
Proof using HlenH HlenL HfinH HfinL.
  clear HlenC HfinC.
  intros Hi. apply wilder_nonneg.
  - apply fillna0_nonneg; [by apply length_minus_DM1_of|exact minus_DM1_of_nonneg|].
    by apply minus_DM1_of_row0.
  - by rewrite length_fillna0, (length_minus_DM1_of H L n).
Qed.


Lemma DI14_of_not_negative i :
  N <= i < n ->
  exists x y,
    plus_DI14_of H L C !! i = Some x /\ minus_DI14_of H L C !! i = Some y
    /\ gt (Fin 0%Qc) x = false /\ gt (Fin 0%Qc) y = false.
Proof using HlenH HlenL HlenC HfinH HfinL HfinC.
  intros Hi.
  destruct (TR14_of_nonneg i Hi) as (t & Ht & Htpos).
  destruct (plus_DM14_of_nonneg i Hi) as (a & Ha & Hapos).
  destruct (minus_DM14_of_nonneg i Hi) as (b & Hb & Hbpos).
  eexists _, _.
  split; [exact (lookup_ratio100 _ _ _ _ _ Ha Ht)|].
  split; [exact (lookup_ratio100 _ _ _ _ _ Hb Ht)|].
  split; by apply di_value_not_negative.
Qed.

Lemma DX_of_between i :
  i < n -> exists x, DX_of H L C !! i = Some x /\ between 0 100 x.
Proof using HlenH HlenL HlenC HfinH HfinL HfinC.
  intros Hi. destruct (decide (i < N)) as [Hlt|Hge].
  - rewrite (DX_of_below_seed H L C n i) by done.
    eexists. split; [reflexivity|]. by apply between_zero.
  - destruct (TR14_of_nonneg i) as (t & Ht & Htpos); [lia|].
    destruct (plus_DM14_of_nonneg i) as (a & Ha & Hapos); [lia|].
    destruct (minus_DM14_of_nonneg i) as (b & Hb & Hbpos); [lia|].
    pose proof (lookup_ratio100 _ _ _ _ _ Ha Ht) as Hp.
    pose proof (lookup_ratio100 _ _ _ _ _ Hb Ht) as Hm.
    rewrite (DX_of_row H L C i _ _ Hp Hm).
    eexists. split; [reflexivity|]. by apply dx_cell_between.
Qed.

Lemma DX_of_all_between : Forall (between 0 100) (DX_of H L C).
Proof using HlenH HlenL HlenC HfinH HfinL HfinC.
  apply Forall_lookup. intros i x Hx.
  assert (i < n) as Hi.
  { rewrite <- (length_DX_of H L C n) by done. by eapply lookup_lt_Some. }
  destruct (DX_of_between i Hi) as (x' & Hx' & Hb). congruence.
Qed.

Lemma ADX_of_between i :
  2 * N - 1 <= i < n ->
  exists v, ADX_of H L C n !! i = Some v /\ between 0 100 v.
Proof using HlenH HlenL HlenC HfinH HfinL HfinC.
  intros Hi. apply adx_from_dx_between; [|exact DX_of_all_between|done].
  by apply length_DX_of.
Qed.

End finite_prices.

Lemma all_finite_of_Z (zs : list Z) : all_finite (of_Z <$> zs).
Proof. apply Forall_fmap, Forall_forall. by intros. Qed.



(** X6.  On a table whose High, Low and Close are all finite numbers,
    [+DI14] and [-DI14] are never negative from index 14 on, and [DX] is a
    finite number between 0 and 100 on every row. *)
Theorem dx_between_0_and_100 (f : frame) (H L C : list float64) :
  ohlc_ready f H L C -> nrows f <> 0 ->
  all_finite H -> all_finite L -> all_finite C ->
  exists f' pdi mdi dx,
    indicators f = (inr tt, f')
    /\ float_col f' "+DI14" = Some pdi /\ float_col f' "-DI14" = Some mdi
    /\ float_col f' "DX" = Some dx
    /\ (forall i, N <= i < nrows f ->
          exists x y, pdi !! i = Some x /\ mdi !! i = Some y
                      /\ gt (Fin 0%Qc) x = false /\ gt (Fin 0%Qc) y = false)
    /\ (forall i, i < nrows f -> exists x, dx !! i = Some x /\ between 0 100 x).
Proof.
  intros Hready Hn HfH HfL HfC.
  destruct (indicators_ready f H L C Hready Hn) as (f' & Hrun & _ & Hind).
  destruct Hready as [_ _ _ HlenH HlenL HlenC].
  exists f', (plus_DI14_of H L C), (minus_DI14_of H L C), (DX_of H L C).
  split; [exact Hrun|]. destruct Hind.
  do 3 (split; [assumption|]). split.
  - intros i Hi.
    exact (DI14_of_not_negative H L C (nrows f) HlenH HlenL HlenC HfH HfL HfC
             i Hi).
  - intros i Hi.
    exact (DX_of_between H L C (nrows f) HlenH HlenL HlenC HfH HfL HfC i Hi).
Qed.

Lemma dx_between_0_and_100_witness :
  exists f' dx x,
    indicators rising_ohlc = (inr tt, f')
    /\ float_col f' "DX" = Some dx
    /\ dx !! 20 = Some x /\ between 0 100 x.
Proof.
  destruct (dx_between_0_and_100 rising_ohlc _ _ _ rising_ohlc_ready)
    as (f' & pdi & mdi & dx & Hrun & _ & _ & Hdx & _ & Hrange).
  - vm_compute. lia.
  - apply all_finite_of_Z.
  - apply all_finite_of_Z.
  - apply all_finite_of_Z.
  - destruct (Hrange 20) as (x & Hx & Hb).
    + vm_compute. lia.
    + exists f', dx, x. repeat split; assumption.
Defined.

(** X7.  On a table of more than 27 rows whose High, Low and Close are all
    finite numbers, [ADX] is a finite number between 0 and 100 on every row
    from index 27 on. *)
Theorem adx_between_0_and_100 (f : frame) (H L C : list float64) :
  ohlc_ready f H L C -> 2 * N - 1 < nrows f ->
  all_finite H -> all_finite L -> all_finite C ->
  exists f' adx,
    indicators f = (inr tt, f')
    /\ float_col f' "ADX" = Some adx
    /\ (forall i, 2 * N - 1 <= i < nrows f ->
          exists v, adx !! i = Some v /\ between 0 100 v).
Proof.
  intros Hready Hn HfH HfL HfC.
  destruct (indicators_ready f H L C Hready) as (f' & Hrun & Hn' & Hind); [lia|].
  destruct Hready as [_ _ _ HlenH HlenL HlenC].
  exists f', (ADX_of H L C (nrows f)).
  split; [exact Hrun|]. destruct Hind. split; [congruence|].
  intros i Hi.
  exact (ADX_of_between H L C (nrows f) HlenH HlenL HlenC HfH HfL HfC i Hi).
Qed.

Lemma adx_between_0_and_100_witness :
  exists f' adx v,
    indicators rising_ohlc = (inr tt, f')
    /\ float_col f' "ADX" = Some adx
    /\ adx !! 29 = Some v /\ between 0 100 v.
Proof.
  destruct (adx_between_0_and_100 rising_ohlc _ _ _ rising_ohlc_ready)
    as (f' & adx & Hrun & Hadx & Hrange).
  - vm_compute. lia.
  - apply all_finite_of_Z.
  - apply all_finite_of_Z.
  - apply all_finite_of_Z.
  - destruct (Hrange 29) as (v & Hv & Hb).
    + vm_compute. lia.
    + exists f', adx, v. repeat split; assumption.
Defined.

(* ================================================================= *)
(** ** [wilder_sum_excel_style] on any column and any window *)

Lemma wilder_next_nan_l n x : wilder_next n NaN x = NaN.
Proof. reflexivity. Qed.

Lemma wilder_next_nan_r n prev : wilder_next n prev NaN = NaN.
Proof. unfold wilder_next. apply add_nan_r. Qed.

(** X8.  For every column and every window [n], the result of
    [wilder_sum_excel_style] has the length of the column; it is undefined
    on every row when the column has at most [n] rows; and an undefined
    value is never recovered from: after the seed index, a row whose raw
    value is undefined, or whose previous smoothed value is, is undefined,
    and so is every later row. *)
Theorem wilder_undefined_spreads (ser : list float64) (n i j : nat) :
  let S := wilder_sum_excel_style ser n in
  length S = length ser
  /\ (length ser <= n -> S = replicate (length ser) NaN)
  /\ (n < i -> i <= j -> j < length ser ->
      ser !! i = Some NaN \/ S !! (i - 1) = Some NaN ->
      S !! j = Some NaN).
Proof.
  intros S. split; [apply wilder_length|]. split.
  - intros Hshort. subst S. unfold wilder_sum_excel_style.
    by rewrite decide_True.
  - intros Hi Hij Hj Hnan.
    assert (S !! i = Some NaN) as Hstart.
    { subst S. rewrite wilder_after_seed by lia. f_equal.
      destruct Hnan as [Hraw|Hprev].
      - rewrite (list_lookup_total_correct _ _ _ Hraw).
        apply wilder_next_nan_r.
      - by rewrite (list_lookup_total_correct _ _ _ Hprev). }
    replace j with (i + (j - i)) in * by lia.
    generalize dependent (j - i). intros k _ Hk.
    induction k as [|k IH]; [by rewrite Nat.add_0_r|].
    subst S. rewrite wilder_after_seed by lia.
    replace (i + S k - 1) with (i + k) by lia.
    assert (i + k < length ser) as Hk' by lia.
    pose proof (IH Hk') as Hprev.
    by rewrite (list_lookup_total_correct _ _ _ Hprev).
Qed.

Lemma wilder_undefined_spreads_witness :
  wilder_sum_excel_style [of_Z 1; of_Z 1; of_Z 1; NaN; of_Z 1; of_Z 1] 2 !! 5
  = Some NaN.
Proof.
  apply (wilder_undefined_spreads
           [of_Z 1; of_Z 1; of_Z 1; NaN; of_Z 1; of_Z 1] 2 3 5);
    [lia|lia|simpl; lia|by left].
Defined.

(* ================================================================= *)
(** ** The table returned by [calculate_adx] *)

Lemma select_head (d : string) (final : list string)
      (cs : list (string * column)) (col : column) :
  Dict.get cs d = Some col ->
  select (d :: final) cs = (d, col) :: select final cs.
Proof. intros Hd. unfold select. cbn [omap list_omap]. by rewrite Hd. Qed.




(** The labels that [calculate_adx] assigns to in the frame it works on. *)
Definition assigned_columns : list string :=
  [ "Open"; "High"; "Low"; "Close";
    "Prev_Close"; "Prev_High"; "Prev_Low"; "TR1"; "TR2"; "TR3"; "TR";
    "UpMove"; "DownMove"; "+DM 1"; "-DM 1";
    "TR14"; "+DM14"; "-DM14";
    "+DI14"; "-DI14"; "DI 14 Diff"; "DI 14 Sum"; "DX"; "ADX" ]%string.

Ltac not_assigned Hnot :=
  let E := fresh in
  intros E; apply Hnot; rewrite <- E;
  apply (bool_decide_unpack _); vm_compute; exact I.

Section returned_table.

Variable parse_float : string -> option float64.
Variable str_of_float : float64 -> string.

(** The columns of the working frame after the coercion and the indicator
    blocks. *)
Definition worked_cols (f0 : frame) (co ch cl cc : column)
  : list (string * column) :=
  indicator_cols (to_numeric parse_float ch) (to_numeric parse_float cl)
                 (to_numeric parse_float cc) (nrows f0)
                 (coerced_cols parse_float co ch cl cc (cols (renamed f0))).

(** [final], and the columns of the working frame after the final block. *)
Definition final_of (f0 : frame) : list string :=
  match date_col_of f0 with
  | Some d => d :: output_columns
  | None => output_columns
  end.

Definition finalized_cols (f0 : frame) (d1 : list (string * column))
  : list (string * column) :=
  match date_col_of f0 with
  | Some dc =>
      match Dict.get d1 dc with
      | Some c =>
          Dict.set (round_numeric d1) dc (astype_str str_of_float (round_col c))
      | None => round_numeric d1
      end
  | None => round_numeric d1
  end.

Lemma worked_cols_untouched (f0 : frame) (co ch cl cc : column) (name : string) :
  name ∉ assigned_columns ->
  Dict.get (worked_cols f0 co ch cl cc) name
  = Dict.get (cols (renamed f0)) name.
Proof.
  intros Hnot.
  unfold worked_cols, indicator_cols, di_dx_cols, smoothed_cols, tr_dm_cols,
    coerced_cols.
  repeat (rewrite dict_get_set_ne by not_assigned Hnot).
  reflexivity.
Qed.

Lemma worked_cols_date_col (f0 : frame) (co ch cl cc : column) (dc : string) :
  date_col_of f0 = Some dc ->
  is_Some (Dict.get (worked_cols f0 co ch cl cc) dc).
Proof.
  intros Hdc.
  unfold worked_cols, indicator_cols, di_dx_cols, smoothed_cols, tr_dm_cols,
    coerced_cols.
  do 28 apply dict_get_set_is_Some. by apply date_col_present.
Qed.



Lemma dict_get_finalized (f0 : frame) (d1 : list (string * column))
      (name : string) :
  Dict.get (finalized_cols f0 d1) name
  = (if decide (date_col_of f0 = Some name)
     then fun c => astype_str str_of_float (round_col c) else round_col)
      <$> Dict.get d1 name.
Proof.
  unfold finalized_cols. destruct (date_col_of f0) as [dc|].
  - destruct (decide (Some dc = Some name)) as [[= ->]|Hne].
    + destruct (Dict.get d1 name) as [c|] eqn:Hc.
      * by rewrite dict_get_set_eq.
      * by rewrite dict_get_round_numeric, Hc.
    + assert (dc <> name) by congruence.
      destruct (Dict.get d1 dc) as [c|].
      * rewrite dict_get_set_ne by done. apply dict_get_round_numeric.
      * apply dict_get_round_numeric.
  - destruct (decide (None = Some name)) as [|_]; [done|].
    apply dict_get_round_numeric.
Qed.

(** The three blocks on a supported input, in closed form. *)
Lemma pipeline_closed (f0 : frame) (co ch cl cc : column) :
  supported f0 co ch cl cc ->
  pipeline parse_float str_of_float (date_col_of f0) (renamed f0)
  = (inr (final_of f0),
     Frame (nrows f0) (finalized_cols f0 (worked_cols f0 co ch cl cc))).
Proof.
  intros Hsup.
  destruct (pipeline_run parse_float str_of_float f0 co ch cl cc Hsup)
    as (Hco & Hind & _).
  unfold pipeline. rewrite bind_unfold, Hco. cbn beta iota.
  rewrite bind_unfold, Hind. cbn beta iota.
  fold (worked_cols f0 co ch cl cc).
  unfold final_of, finalized_cols.
  destruct (date_col_of f0) as [dc|] eqn:Hdc.
  - destruct (worked_cols_date_col f0 co ch cl cc dc Hdc) as [c Hc].
    rewrite Hc. by rewrite (finalize_run_Some str_of_float _ _ _ _ Hc).
  - by rewrite finalize_run_None.
Qed.

Lemma calculate_adx_closed (h : list frame) (l : nat) (f0 : frame)
      (co ch cl cc : column) :
  h !! l = Some f0 ->
  supported f0 co ch cl cc ->
  let d2 := finalized_cols f0 (worked_cols f0 co ch cl cc) in
  calculate_adx parse_float str_of_float l h
  = (inr (S (S (length h))),
     h ++ [f0; Frame (nrows f0) d2;
           Frame (nrows f0) (select (final_of f0) d2)]).
Proof.
  intros Hl Hsup. cbv zeta.
  rewrite (calculate_adx_unfold parse_float str_of_float h l f0 Hl).
  unfold calculate_adx_on.
  rewrite (pipeline_closed f0 co ch cl cc Hsup).
  destruct Hsup as [Hdet Huniq _ _ _ _ Hrows].
  rewrite bool_decide_eq_false_2 by done.
  destruct (labels f0) as [|k rest] eqn:Hlab.
  { exfalso. apply Hdet. vm_compute. apply elem_of_cons. by left. }
  rewrite bool_decide_eq_true_2 by done. reflexivity.
Qed.


(** The first column of the input is the label column when it is not one
    of the detected price columns; the renaming leaves it in place. *)
Lemma date_col_first (f0 : frame) (dc : string) :
  date_col_of f0 = Some dc ->
  exists c0, cols f0 !! 0 = Some (dc, c0)
             /\ Dict.get (cols (renamed f0)) dc = Some c0.
Proof.
  intros Hdc. pose proof (date_col_not_renamed f0 dc Hdc) as Hren.
  unfold renamed. cbn [cols].
  set (m := rename_map _) in *. clearbody m.
  unfold date_col_of in Hdc.
  destruct (labels f0) as [|k rest] eqn:Hlab; [done|].
  case_bool_decide; [done|]. simplify_eq.
  unfold labels, Dict.keys in Hlab.
  destruct (cols f0) as [|[k' c] d]; [done|].
  cbn [fmap list_fmap fst] in Hlab. simplify_eq.
  exists c. split; [done|].
  unfold rename_cols. cbn [fmap list_fmap fst snd Dict.get].
  rewrite Hren. cbn [default from_option id]. by rewrite String.eqb_refl.
Qed.

End returned_table.

(** X9.  A table with the four price columns and no row makes
    [calculate_adx] fail with [IndexError], at [df.index[0]]: the copy of the
    input and the renamed frame have been allocated, nothing is returned. *)
Theorem header_only_table (parse_float : string -> option float64)
        (str_of_float : float64 -> string)
        (h : list frame) (l : nat) (f0 : frame) (co ch cl cc : column) :
  h !! l = Some f0 ->
  None ∉ Dict.values (detect_ohlc_columns (labels f0)) ->
  NoDup (labels (renamed f0)) ->
  Dict.get (cols (renamed f0)) "Open" = Some co ->
  Dict.get (cols (renamed f0)) "High" = Some ch ->
  Dict.get (cols (renamed f0)) "Low" = Some cl ->
  Dict.get (cols (renamed f0)) "Close" = Some cc ->
  nrows f0 = 0 ->
  exists g,
    calculate_adx parse_float str_of_float l h
    = (inl IndexError, h ++ [f0; g]).
Proof.
  intros Hl Hdet Huniq Ho Hh Hlo Hc Hrows.
  assert (exists g, pipeline parse_float str_of_float (date_col_of f0) (renamed f0)
                    = (inl IndexError, g)) as [g Hpipe].
  { unfold pipeline. rewrite bind_unfold.
    change (coerce_ohlc parse_float (renamed f0))
      with (coerce_ohlc parse_float (Frame (nrows f0) (cols (renamed f0)))).
    rewrite (coerce_ohlc_run parse_float _ _ co ch cl cc Ho Hh Hlo Hc).
    cbn beta iota. rewrite bind_unfold. unfold indicators.
    rewrite bind_unfold. rewrite Hrows.
    destruct (coerced_cols_read parse_float 0 (cols (renamed f0)) co ch cl cc)
      as (_ & HH & HL & HC).
    pose proof (true_range_and_dm_empty _ (ex_intro _ _ HH) (ex_intro _ _ HL)
                  (ex_intro _ _ HC)) as Hempty.
    destruct (true_range_and_dm (Frame 0 _)) as [[e|[]] g]; cbn [fst] in Hempty.
    - injection Hempty as ->. by exists g.
    - discriminate Hempty. }
  exists g.
  rewrite (calculate_adx_unfold parse_float str_of_float h l f0 Hl).
  unfold calculate_adx_on.
  rewrite bool_decide_eq_false_2 by done.
  destruct (labels f0) as [|k rest] eqn:Hlab.
  { exfalso. apply Hdet. vm_compute. apply elem_of_cons. by left. }
  rewrite bool_decide_eq_true_2 by done.
  by rewrite Hpipe.
Qed.

(** A table that holds the four headers and no row. *)
Definition header_only_csv : frame :=
  Frame 0 [("Date", ObjCol []); ("Open", ObjCol []); ("High", ObjCol []);
           ("Low", ObjCol []); ("Close", ObjCol [])]%string.

Lemma header_only_table_witness :
  exists g,
    calculate_adx no_parse no_str 0 [header_only_csv]
    = (inl IndexError, [header_only_csv; header_only_csv; g]).
Proof.
  apply (header_only_table no_parse no_str [header_only_csv] 0 header_only_csv
           (ObjCol []) (ObjCol []) (ObjCol []) (ObjCol []));
    first [reflexivity | by_eval].
Defined.



Definition is_text (x : cell) : Prop :=
  match x with CStr _ => True | CFloat _ => False end.

Lemma astype_str_text str_of_float (cells : list cell) :
  Forall is_text cells ->
  astype_str str_of_float (ObjCol cells) = ObjCol cells.
Proof.
  intros Hcells. cbn [astype_str]. f_equal.
  induction Hcells as [|x cells Hx _ IH]; [done|].
  cbn [fmap list_fmap]. rewrite IH. by destruct x.
Qed.

(** X11.  When the first column of the input is not a detected price column
    and does not bear a name the program assigns to, it is the first column
    of the returned table, under its own label: its values are rounded to 6
    decimals if it is numeric and then converted by [astype(str)]; a column
    of text is returned as it is. *)
Theorem label_column_kept (parse_float : string -> option float64)
        (str_of_float : float64 -> string)
        (h : list frame) (l : nat) (f0 : frame) (co ch cl cc : column)
        (dc : string) :
  h !! l = Some f0 ->
  supported f0 co ch cl cc ->
  date_col_of f0 = Some dc ->
  dc ∉ assigned_columns ->
  exists c0 g out,
    cols f0 !! 0 = Some (dc, c0)
    /\ calculate_adx parse_float str_of_float l h
       = (inr (S (S (length h))), h ++ [f0; g; out])
    /\ cols out !! 0 = Some (dc, astype_str str_of_float (round_col c0))
    /\ (forall cells, c0 = ObjCol cells -> Forall is_text cells ->
                      cols out !! 0 = Some (dc, c0)).
Proof.
  intros Hl Hsup Hdc Hnot.
  destruct (date_col_first f0 dc Hdc) as (c0 & Hfirst & Hren).
  assert (Dict.get (finalized_cols str_of_float f0
                      (worked_cols parse_float f0 co ch cl cc)) dc
          = Some (astype_str str_of_float (round_col c0))) as Hget.
  { rewrite dict_get_finalized, decide_True by done.
    by rewrite worked_cols_untouched, Hren. }
  assert (cols (Frame (nrows f0)
                  (select (final_of f0)
                     (finalized_cols str_of_float f0
                        (worked_cols parse_float f0 co ch cl cc)))) !! 0
          = Some (dc, astype_str str_of_float (round_col c0))) as Hout.
  { cbn [cols]. unfold final_of. rewrite Hdc.
    by rewrite (select_head _ _ _ _ Hget). }
  eexists c0, _, _. split; [exact Hfirst|].
  split; [exact (calculate_adx_closed parse_float str_of_float h l f0
                   co ch cl cc Hl Hsup)|].
  split; [exact Hout|].
  intros cells -> Hcells. rewrite Hout. cbn [round_col].
  by rewrite astype_str_text.
Qed.

Lemma label_column_kept_witness :
  exists g out,
    calculate_adx no_parse no_str 0 [rising_csv]
    = (inr 3, [rising_csv; rising_csv; g; out])
    /\ cols out !! 0
       = Some ("Date"%string,
               ObjCol ((fun _ => CStr "2025-12-03") <$> rising_days)).
Proof.
  destruct (label_column_kept no_parse no_str [rising_csv] 0 rising_csv
              (float_column rising_days)
              (float_column (Z.succ <$> rising_days))
              (float_column rising_days)
              (float_column (Z.succ <$> rising_days)) "Date"%string)
    as (c0 & g & out & Hfirst & Hrun & _ & Htext).
  - reflexivity.
  - split; first [reflexivity | by_eval].
  - reflexivity.
  - by_eval.
  - cbn [length app] in Hrun. injection Hfirst as <-. exists g, out.
    split; [exact Hrun|].
    apply (Htext _ eq_refl). repeat constructor.
Defined.

(* ================================================================= *)
(** ** The final rounding *)

(** [rint] is within one half of its argument. *)
Lemma rint_close (q : Q) :
  (inject_Z (rint q) - q <= 1 # 2)%Q /\ (q - inject_Z (rint q) <= 1 # 2)%Q.
Proof.
  unfold rint. cbv zeta.
  pose proof (Qfloor_le q) as Hlo. pose proof (Qlt_floor q) as Hhi.
  rewrite inject_Z_plus in Hhi. change (inject_Z 1) with 1%Q in Hhi.
  destruct (Qcompare_spec (q - inject_Z (Qfloor q)) (1 # 2)) as [Heq|Hlt|Hgt].
  - destruct (Z.even (Qfloor q)); rewrite ?inject_Z_plus;
      change (inject_Z 1) with 1%Q; split; lra.
  - split; lra.
  - rewrite inject_Z_plus. change (inject_Z 1) with 1%Q. split; lra.
Qed.

Lemma Qinv_million : (/ million == 1 # 1000000)%Q.
Proof. reflexivity. Qed.

(** [round6] moves a finite number by at most half a unit of the sixth
    decimal, onto a multiple of [10^-6]. *)
Lemma round6_close (q : Qc) :
  exists k : Z,
    round6 (Fin q) = Fin (Q2Qc (inject_Z k / million))
    /\ (q - Q2Qc (1 # 2000000) <= Q2Qc (inject_Z k / million))%Qc
    /\ (Q2Qc (inject_Z k / million) <= q + Q2Qc (1 # 2000000))%Qc.
Proof.
  exists (rint (this q * million)). split; [reflexivity|].
  destruct (rint_close (this q * million)) as [Hup Hdown].
  set (k := inject_Z (rint (this q * million))) in *. clearbody k.
  qc_to_q. unfold Qdiv. rewrite Qinv_million.
  unfold million, inject_Z in *. split; lra.
Qed.

(** X12.  The final rounding moves every finite cell of an output column by
    at most 0.0000005, onto a multiple of 0.000001, and leaves an infinite
    or undefined cell as it is. *)
Theorem output_rounded_to_6_decimals
        (parse_float : string -> option float64)
        (str_of_float : float64 -> string)
        (h : list frame) (l : nat) (f0 : frame) (co ch cl cc : column) :
  h !! l = Some f0 ->
  supported f0 co ch cl cc ->
  label_apart f0 ->
  exists g0 g1 lo h' out,
    coerce_ohlc parse_float (renamed f0) = (inr tt, g0)
    /\ indicators g0 = (inr tt, g1)
    /\ calculate_adx parse_float str_of_float l h = (inr lo, h')
    /\ h' !! lo = Some out
    /\ (forall name v i x,
          name ∈ output_columns -> float_col g1 name = Some v ->
          v !! i = Some x ->
          exists w y,
            float_col out name = Some w /\ w !! i = Some y
            /\ match x with
               | Fin q =>
                   exists k : Z,
                     y = Fin (Q2Qc (inject_Z k / million))
                     /\ (q - Q2Qc (1 # 2000000)
                         <= Q2Qc (inject_Z k / million))%Qc
                     /\ (Q2Qc (inject_Z k / million)
                         <= q + Q2Qc (1 # 2000000))%Qc
               | _ => y = x
               end).
Proof.
  intros Hl Hsup Hapart.
  destruct (calculate_adx_ok parse_float str_of_float h l f0 co ch cl cc Hl Hsup)
    as (g0 & g1 & g2 & out & Hco & _ & _ & _ & _ & _ & Hind & _ & _ & Hrun & _
        & Hout & _).
  exists g0, g1, (S (S (length h))), (h ++ [f0; g2; out]), out.
  split; [exact Hco|]. split; [exact Hind|]. split; [exact Hrun|].
  split; [apply heap_lookup_last3|].
  intros name v i x Hname Hv Hx.
  exists (round_series v), (round6 x).
  split; [exact (Hout name v Hname (Hapart name Hname) Hv)|].
  split; [by rewrite lookup_round_series, Hx|].
  destruct x as [| s |q]; [reflexivity|reflexivity|].
  destruct (round6_close q) as (k & Hk & Hlo & Hhi).
  exists k. split; [exact Hk|]. split; [exact Hlo|exact Hhi].
Qed.

Lemma output_rounded_to_6_decimals_witness :
  exists lo h' out,
    calculate_adx no_parse no_str 0 [rising_csv] = (inr lo, h')
    /\ h' !! lo = Some out
    /\ exists w y, float_col out "DX" = Some w /\ w !! 14 = Some y.
Proof.
  destruct (output_rounded_to_6_decimals no_parse no_str [rising_csv] 0
              rising_csv (float_column rising_days)
              (float_column (Z.succ <$> rising_days))
              (float_column rising_days)
              (float_column (Z.succ <$> rising_days)))
    as (g0 & g1 & lo & h' & out & Hco & Hind & Hrun & Hout & Hcells).
  - reflexivity.
  - split; first [reflexivity | by_eval].
  - intros name Hin Heq.
    assert (date_col_of rising_csv = Some "Date"%string) as Hd by reflexivity.
    rewrite Hd in Heq. injection Heq as <-. revert Hin. by_eval.
  - exists lo, h', out. split; [exact Hrun|]. split; [exact Hout|].
    assert (exists v x, float_col g1 "DX" = Some v /\ v !! 14 = Some x)
      as (v & x & Hv & Hx).
    { vm_compute in Hco. injection Hco as <-.
      vm_compute in Hind. injection Hind as <-.
      eexists _, _. split; vm_compute; reflexivity. }
    destruct (Hcells "DX"%string v 14 x) as (w & y & Hw & Hy & _);
      [by_eval|exact Hv|exact Hx|].
    exists w, y. split; assumption.
Defined.

(* ================================================================= *)
(** ** Tables too short to seed the smoothing *)







Section short_table.

Variables (H L C : list float64) (n : nat).
Hypothesis HlenH : length H = n.
Hypothesis HlenL : length L = n.
Hypothesis HlenC : length C = n.
Hypothesis Hshort : n <= N.









End short_table.



(* ================================================================= *)
(** ** The ADX column is finite from its seed on, and follows DX *)

Lemma sum_finite (s : list float64) (acc : Qc) :
  Forall (fun x => isfinite x = true) s ->
  exists q, foldl add (Fin acc) s = Fin q.
Proof.
  intros Hs. revert acc.
  induction Hs as [|x s Hx _ IH]; intros acc; [by exists acc|].
  destruct x as [| |v]; try discriminate Hx. cbn [foldl add]. apply IH.
Qed.

Lemma mean_finite (s : list float64) :
  length s = N -> Forall (fun x => isfinite x = true) s ->
  exists q, mean s = Fin q.
Proof.
  intros Hlen Hs. rewrite mean_no_nan.
  - destruct (sum_finite s 0%Qc Hs) as (q & ->).
    rewrite Hlen. unfold of_nat, of_Z. cbn [div]. rewrite N_nonzero. eauto.
  - intros ->. discriminate Hlen.
  - eapply Forall_impl; [exact Hs|]. intros x. by destruct x.
Qed.

(** One step of the ADX recursion on finite numbers: the new value lies
    between the previous value and the DX value. *)
Lemma adx_next_toward (p x : Qc) :
  exists a, adx_next N (Fin p) (Fin x) = Fin a
            /\ ((p <= x)%Qc -> (p <= a)%Qc /\ (a <= x)%Qc)
            /\ ((x <= p)%Qc -> (x <= a)%Qc /\ (a <= p)%Qc).
Proof.
  unfold adx_next, of_nat, of_Z. cbn [mul add div]. rewrite N_nonzero.
  eexists. split; [reflexivity|].
  change (Z.of_nat N) with 14%Z. change (Z.of_nat (N - 1)) with 13%Z.
  split; intros Hle; qc_to_q; rewrite Qinv_14; unfold inject_Z in *;
    split; lra.
Qed.

Lemma adx_from_dx_finite (dx : list float64) (len i : nat) :
  length dx = len -> Forall (fun x => isfinite x = true) dx ->
  2 * N - 1 <= i < len ->
  exists q, adx_from_dx N len dx !! i = Some (Fin q).
Proof.
  intros Hlen Hdx [Hi Hn].
  replace i with (2 * N - 1 + (i - (2 * N - 1))) in * by lia.
  generalize dependent (i - (2 * N - 1)). clear i. intros k _ Hk.
  induction k as [|k IH].
  - rewrite Nat.add_0_r in *. rewrite adx_seed by done.
    destruct (mean_finite (slice N (2 * N - 1 + 1) dx)) as (q & ->).
    + rewrite length_slice by (unfold N in *; lia). unfold N. lia.
    + unfold slice. by apply Forall_take, Forall_drop.
    + by exists q.
  - destruct IH as (p & Hp); [lia|].
    rewrite adx_after_seed by lia.
    replace (2 * N - 1 + S k - 1) with (2 * N - 1 + k) by (unfold N; lia).
    rewrite (list_lookup_total_correct _ _ _ Hp).
    destruct (all_finite_lookup dx (2 * N - 1 + S k) Hdx) as (x & Hx); [lia|].
    rewrite (list_lookup_total_correct _ _ _ Hx).
    destruct (adx_next_toward p x) as (a & -> & _). by exists a.
Qed.

(** X14.  On a table of more than 27 rows, whatever its values are, [ADX]
    is a finite number on every row from index 27 on, and on every row
    after index 27 it lies between the previous [ADX] and the [DX] of the
    row: it equals them when they are equal. *)
Theorem adx_follows_dx (f : frame) (H L C : list float64) :
  ohlc_ready f H L C -> 2 * N - 1 < nrows f ->
  exists f' dx adx,
    indicators f = (inr tt, f')
    /\ float_col f' "DX" = Some dx /\ float_col f' "ADX" = Some adx
    /\ (forall i, 2 * N - 1 <= i < nrows f -> exists a, adx !! i = Some (Fin a))
    /\ (forall i, 2 * N - 1 < i < nrows f ->
          exists p x a,
            adx !! (i - 1) = Some (Fin p) /\ dx !! i = Some (Fin x)
            /\ adx !! i = Some (Fin a)
            /\ ((p <= x)%Qc -> (p <= a)%Qc /\ (a <= x)%Qc)
            /\ ((x <= p)%Qc -> (x <= a)%Qc /\ (a <= p)%Qc)
            /\ (p = x -> a = p)).
Proof.
  intros Hready Hn.
  destruct (indicators_ready f H L C Hready) as (f' & Hrun & Hn' & Hind);
    [lia|].
  destruct Hready as [_ _ _ HlenH HlenL HlenC].
  pose proof (length_DX_of H L C (nrows f) HlenH HlenL HlenC) as Hlen.
  pose proof (replace_nonfinite0_finite (DX_raw_of H L C)) as Hfin.
  fold (DX_of H L C) in Hfin.
  exists f', (DX_of H L C), (ADX_of H L C (nrows f)).
  split; [exact Hrun|]. destruct Hind.
  split; [assumption|]. split; [congruence|]. split.
  - intros i Hi. by apply adx_from_dx_finite.
  - intros i Hi.
    destruct (adx_from_dx_finite (DX_of H L C) (nrows f) (i - 1) Hlen Hfin)
      as (p & Hp); [lia|].
    destruct (all_finite_lookup (DX_of H L C) i Hfin) as (x & Hx); [lia|].
    destruct (adx_next_toward p x) as (a & Ha & Hup & Hdown).
    exists p, x, a. split; [exact Hp|]. split; [exact Hx|]. split.
    + unfold ADX_of in *. rewrite adx_after_seed by lia.
      rewrite (list_lookup_total_correct _ _ _ Hp).
      rewrite (list_lookup_total_correct _ _ _ Hx). by rewrite Ha.
    + split; [exact Hup|]. split; [exact Hdown|].
      intros ->. destruct (Hup (Qcle_refl x)) as [H1 H2].
      by apply Qcle_antisym.
Qed.

Lemma adx_follows_dx_witness :
  exists f' adx a,
    indicators rising_ohlc = (inr tt, f')
    /\ float_col f' "ADX" = Some adx
    /\ adx !! 28 = Some (Fin a).
Proof.
  destruct (adx_follows_dx rising_ohlc _ _ _ rising_ohlc_ready)
    as (f' & dx & adx & Hrun & _ & Hadx & Hfin & _).
  - vm_compute. lia.
  - destruct (Hfin 28) as (a & Ha); [vm_compute; lia|].
    exists f', adx, a. repeat split; assumption.
Defined.

(* ================================================================= *)
(** ** One header detected for two keys *)

(** When a header has the key itself as its lower-cased name, the header
    assigned to the key has that lower-cased name. *)
Lemma detect_key_exact (columns : list string) (key c0 x : string)
      (rest : list string) :
  key <> ""%string -> ""%string ∉ rest ->
  c0 ∈ columns -> Header.lower c0 = key ->
  detect_key (lower_index columns) key (key :: rest) = Some x ->
  Header.lower x = key.
Proof.
  intros Hkey Hrest Hc0 Hlow Hdet.
  destruct (last (filter (fun c => Header.lower c = key) columns)) as [c1|]
    eqn:Hlast.
  - assert (first_option (lower_index columns) (key :: rest) = Some c1)
      as Hfirst.
    { apply (first_option_at _ _ 0 key); [done|intros; lia|].
      by rewrite lower_index_get. }
    unfold detect_key in Hdet. rewrite Hfirst in Hdet.
    rewrite (first_option_truthy columns (key :: rest) c1) in Hdet.
    + injection Hdet as <-.
      by apply (last_filter_elem (fun c => Header.lower c = key)) in Hlast
        as [_ ?].
    + intros Hin. apply elem_of_cons in Hin as [Heq|Hin]; [by symmetry in Heq|].
      by apply Hrest.
    + exact Hfirst.
  - pose proof (proj1 (last_filter_None (fun c => Header.lower c = key)
                           columns) Hlast) as Hno.
    by destruct (Hno c0 Hc0).
Qed.

Lemma dict_get_four (xo xh xl xc k : string) :
  Dict.get (Dict.of_list [(xo, "Open"); (xh, "High"); (xl, "Low");
                          (xc, "Close")]%string) k
  = if String.eqb xc k then Some "Close"%string
    else if String.eqb xl k then Some "Low"%string
    else if String.eqb xh k then Some "High"%string
    else if String.eqb xo k then Some "Open"%string
    else None.
Proof.
  unfold Dict.of_list. cbn [foldl fst snd].
  rewrite !dict_get_set. cbn [Dict.get]. reflexivity.
Qed.

Lemma rename_cols_get_None (m : list (string * string))
      (cs : list (string * column)) (name : string) :
  (forall k, k ∈ cs.*1 -> default k (Dict.get m k) <> name) ->
  Dict.get (rename_cols m cs) name = None.
Proof.
  intros Hall. apply dict_get_None. unfold rename_cols.
  rewrite <- list_fmap_compose. intros Hin.
  apply list_elem_of_fmap in Hin as ([k c] & Heq & Hkc). cbn in Heq.
  apply (Hall k); [|done]. apply list_elem_of_fmap. by exists (k, c).
Qed.

Section shared_header.

Variable columns : list string.
Variables xo xh xl xc : string.
Hypothesis Hdetect :
  detect_ohlc_columns columns
  = [("open", Some xo); ("high", Some xh); ("low", Some xl);
     ("close", Some xc)]%string.

Lemma detected_keys :
  detect_key (lower_index columns) "open" ["open"; "o"] = Some xo
  /\ detect_key (lower_index columns) "high" ["high"; "h"] = Some xh
  /\ detect_key (lower_index columns) "low" ["low"; "l"] = Some xl
  /\ detect_key (lower_index columns) "close" ["close"; "c"] = Some xc.
Proof using Hdetect.
  change (detect_ohlc_columns columns)
    with [("open", detect_key (lower_index columns) "open" ["open"; "o"]);
          ("high", detect_key (lower_index columns) "high" ["high"; "h"]);
          ("low", detect_key (lower_index columns) "low" ["low"; "l"]);
          ("close", detect_key (lower_index columns) "close" ["close"; "c"])]%string
    in Hdetect.
  by injection Hdetect as -> -> -> ->.
Qed.

(** A header with the lower-cased name of one key is not the header of
    another key: a header shared by two keys was found for the first of
    them by the substring test, and no header is named as that key. *)
Lemma shared_not_exact (key key' x c0 : string) (opts opts' : list string) :
  (key, opts, key', opts')
    ∈ [("open", ["open"; "o"], "high", ["high"; "h"]);
       ("open", ["open"; "o"], "low", ["low"; "l"]);
       ("open", ["open"; "o"], "close", ["close"; "c"]);
       ("high", ["high"; "h"], "low", ["low"; "l"]);
       ("high", ["high"; "h"], "close", ["close"; "c"]);
       ("low", ["low"; "l"], "close", ["close"; "c"])]%string ->
  detect_key (lower_index columns) key opts = Some x ->
  detect_key (lower_index columns) key' opts' = Some x ->
  c0 ∈ columns -> Header.lower c0 <> key.
Proof.
  clear Hdetect. intros Hpair Hdet Hdet' Hc0 Hlow.
  assert (Header.lower x = key) as Hx.
  { repeat (apply elem_of_cons in Hpair as [[= -> -> -> ->]|Hpair];
            [refine (detect_key_exact columns _ c0 x _ _ _ Hc0 Hlow Hdet);
             [discriminate|by_eval]|]).
    by apply elem_of_nil in Hpair. }
  repeat (apply elem_of_cons in Hpair as [[= -> -> -> ->]|Hpair];
          [apply detect_key_match in Hdet' as [_ Hm]; [|by_eval];
           rewrite Hx in Hm; destruct Hm as [Hm|Hm];
           [revert Hm; by_eval|discriminate Hm]|]).
  by apply elem_of_nil in Hpair.
Qed.

End shared_header.

Section shared_header_run.

Variable f0 : frame.
Variables xo xh xl xc : string.
Hypothesis Hdetect :
  detect_ohlc_columns (labels f0)
  = [("open", Some xo); ("high", Some xh); ("low", Some xl);
     ("close", Some xc)]%string.

Lemma renamed_cols_four :
  cols (renamed f0)
  = rename_cols (Dict.of_list [(xo, "Open"); (xh, "High"); (xl, "Low");
                               (xc, "Close")]%string) (cols f0).
Proof using Hdetect. unfold renamed. cbn [cols]. by rewrite Hdetect. Qed.

(** The name of a key that shares its header with a later key is not a
    label of the renamed frame. *)
Lemma renamed_lacks_Open :
  xo = xh \/ xo = xl \/ xo = xc ->
  Dict.get (cols (renamed f0)) "Open" = None.
Proof using Hdetect.
  intros Hshared.
  destruct (detected_keys (labels f0) xo xh xl xc Hdetect)
    as (Ho & Hh & Hl & Hc).
  rewrite renamed_cols_four. apply rename_cols_get_None.
  intros k Hk. fold (labels f0) in Hk. rewrite dict_get_four.
  destruct (String.eqb xc k) eqn:E1; [discriminate|].
  destruct (String.eqb xl k) eqn:E2; [discriminate|].
  destruct (String.eqb xh k) eqn:E3; [discriminate|].
  apply String.eqb_neq in E1, E2, E3.
  destruct (String.eqb xo k) eqn:E4.
  - apply String.eqb_eq in E4. destruct Hshared as [?|[?|?]]; congruence.
  - cbn [default from_option id]. intros ->.
    destruct Hshared as [Heq|[Heq|Heq]]; rewrite Heq in Ho.
    + by apply (shared_not_exact (labels f0) "open" "high" xh "Open"
                  ["open"; "o"] ["high"; "h"]); [by_eval|..].
    + by apply (shared_not_exact (labels f0) "open" "low" xl "Open"
                  ["open"; "o"] ["low"; "l"]); [by_eval|..].
    + by apply (shared_not_exact (labels f0) "open" "close" xc "Open"
                  ["open"; "o"] ["close"; "c"]); [by_eval|..].
Qed.

Lemma renamed_lacks_High :
  xh = xl \/ xh = xc ->
  Dict.get (cols (renamed f0)) "High" = None.
Proof using Hdetect.
  intros Hshared.
  destruct (detected_keys (labels f0) xo xh xl xc Hdetect)
    as (Ho & Hh & Hl & Hc).
  rewrite renamed_cols_four. apply rename_cols_get_None.
  intros k Hk. fold (labels f0) in Hk. rewrite dict_get_four.
  destruct (String.eqb xc k) eqn:E1; [discriminate|].
  destruct (String.eqb xl k) eqn:E2; [discriminate|].
  apply String.eqb_neq in E1, E2.
  destruct (String.eqb xh k) eqn:E3.
  - apply String.eqb_eq in E3. destruct Hshared as [?|?]; congruence.
  - destruct (String.eqb xo k) eqn:E4; [discriminate|].
    cbn [default from_option id]. intros ->.
    destruct Hshared as [Heq|Heq]; rewrite Heq in Hh.
    + by apply (shared_not_exact (labels f0) "high" "low" xl "High"
                  ["high"; "h"] ["low"; "l"]); [by_eval|..].
    + by apply (shared_not_exact (labels f0) "high" "close" xc "High"
                  ["high"; "h"] ["close"; "c"]); [by_eval|..].
Qed.

Lemma renamed_lacks_Low :
  xl = xc -> Dict.get (cols (renamed f0)) "Low" = None.
Proof using Hdetect.
  intros Heq.
  destruct (detected_keys (labels f0) xo xh xl xc Hdetect)
    as (Ho & Hh & Hl & Hc).
  rewrite renamed_cols_four. apply rename_cols_get_None.
  intros k Hk. fold (labels f0) in Hk. rewrite dict_get_four.
  destruct (String.eqb xc k) eqn:E1; [discriminate|].
  apply String.eqb_neq in E1.
  destruct (String.eqb xl k) eqn:E2.
  - apply String.eqb_eq in E2. congruence.
  - destruct (String.eqb xh k) eqn:E3; [discriminate|].
    destruct (String.eqb xo k) eqn:E4; [discriminate|].
    cbn [default from_option id]. intros ->. rewrite Heq in Hl.
    by apply (shared_not_exact (labels f0) "low" "close" xc "Low"
                ["low"; "l"] ["close"; "c"]); [by_eval|..].
Qed.

End shared_header_run.

Lemma coerce_ohlc_key_error (parse_float : string -> option float64)
      (f : frame) :
  Dict.get (cols f) "Open" = None \/ Dict.get (cols f) "High" = None
  \/ Dict.get (cols f) "Low" = None ->
  exists name,
    name ∈ ["Open"; "High"; "Low"]%string
    /\ coerce_ohlc parse_float f = (inl (KeyError name), f).
Proof.
  intros Hnone. unfold coerce_ohlc.
  destruct (Dict.get (cols f) "Open") as [co|] eqn:Ho; cycle 1.
  { exists "Open"%string. split; [by_eval|].
    apply run_bind_raise. unfold getitem. by rewrite Ho. }
  erewrite (run_bind (getitem _)); [|by apply getitem_ok].
  destruct (Dict.get (cols f) "High") as [ch|] eqn:Hh; cycle 1.
  { exists "High"%string. split; [by_eval|].
    apply run_bind_raise. unfold getitem. by rewrite Hh. }
  erewrite (run_bind (getitem _)); [|by apply getitem_ok].
  destruct (Dict.get (cols f) "Low") as [cl|] eqn:Hl; cycle 1.
  { exists "Low"%string. split; [by_eval|].
    apply run_bind_raise. unfold getitem. by rewrite Hl. }
  by destruct Hnone as [?|[?|?]].
Qed.

(** X15.  When [detect_ohlc_columns] assigns one header to two keys -- a
    header such as "HighLow", found for both by the substring test -- the
    table is not reported as lacking a column: the renaming gives that
    header the name of the later key only, and [calculate_adx] fails with
    [KeyError] on the name of a price column, after allocating the copy of
    the input and the renamed frame. *)
Theorem shared_header_key_error (parse_float : string -> option float64)
        (str_of_float : float64 -> string)
        (h : list frame) (l : nat) (f0 : frame) (xo xh xl xc : string) :
  h !! l = Some f0 ->
  detect_ohlc_columns (labels f0)
  = [("open", Some xo); ("high", Some xh); ("low", Some xl);
     ("close", Some xc)]%string ->
  NoDup (labels (renamed f0)) ->
  ~ NoDup [xo; xh; xl; xc] ->
  exists name,
    name ∈ ["Open"; "High"; "Low"]%string
    /\ calculate_adx parse_float str_of_float l h
       = (inl (KeyError name), h ++ [f0; renamed f0]).
Proof.
  intros Hl Hdetect Huniq Hshared.
  assert (Dict.get (cols (renamed f0)) "Open" = None
          \/ Dict.get (cols (renamed f0)) "High" = None
          \/ Dict.get (cols (renamed f0)) "Low" = None) as Hnone.
  { destruct (decide (xo = xh \/ xo = xl \/ xo = xc)) as [Ho|Ho].
    { left. by apply (renamed_lacks_Open f0 xo xh xl xc). }
    destruct (decide (xh = xl \/ xh = xc)) as [Hh|Hh].
    { right. left. by apply (renamed_lacks_High f0 xo xh xl xc). }
    destruct (decide (xl = xc)) as [Hlc|Hlc].
    { right. right. by apply (renamed_lacks_Low f0 xo xh xl xc). }
    exfalso. apply Hshared.
    repeat (apply NoDup_cons; split;
            [intros Hin;
             repeat (apply elem_of_cons in Hin as [Hin|Hin]; [tauto|]);
             by apply elem_of_nil in Hin|]).
    apply NoDup_nil_2. }
  destruct (coerce_ohlc_key_error parse_float (renamed f0) Hnone)
    as (name & Hname & Hco).
  exists name. split; [exact Hname|].
  rewrite (calculate_adx_unfold parse_float str_of_float h l f0 Hl).
  unfold calculate_adx_on.
  rewrite bool_decide_eq_false_2; cycle 1.
  { rewrite Hdetect. unfold Dict.values. cbn [fmap list_fmap snd].
    intros Hin.
    repeat (apply elem_of_cons in Hin as [Hin|Hin]; [discriminate Hin|]).
    by apply elem_of_nil in Hin. }
  destruct (labels f0) as [|k rest] eqn:Hlab; [discriminate Hdetect|].
  rewrite bool_decide_eq_true_2 by done.
  unfold pipeline. rewrite bind_unfold, Hco. reflexivity.
Qed.

(** A table whose first column stands for both High and Low. *)
Definition high_low_csv : frame :=
  Frame 2 [("HighLow", float_column [2; 3]%Z);
           ("Open", float_column [1; 2]%Z);
           ("Close", float_column [2; 3]%Z)]%string.

Lemma shared_header_key_error_witness :
  exists name,
    name ∈ ["Open"; "High"; "Low"]%string
    /\ calculate_adx no_parse no_str 0 [high_low_csv]
       = (inl (KeyError name),
          [high_low_csv] ++ [high_low_csv; renamed high_low_csv]).
Proof.
  apply (shared_header_key_error no_parse no_str [high_low_csv] 0
           high_low_csv "Open" "HighLow" "HighLow" "Close");
    [reflexivity|reflexivity|by_eval|by_eval].
Defined.

(* ================================================================= *)
(** * The views of [adxapp/views.py] (revision 20251203165021)

    [process_file] reads the uploaded file, runs [calculate_adx] on it and
    renders the result; [download_csv] serves the table stored by the last
    successful run.  A request carries its method and its uploaded files;
    the session and the heap of frames make up the state the views run in.
    The parsing of the file ([pd.read_csv]), the printing of a table
    ([DataFrame.to_csv]), the drawing of the figure and the text of an
    exception that is not a [ValueError] are parameters. *)

(** A value of a template context. *)
Inductive ctx_value : Type :=
| CtxStr (s : string)
| CtxList (l : list string)
| CtxRows (rows : list (list cell)).

(** What a view returns: [render(request, template, context)], or an
    [HttpResponse] ([content_type] is [None] when it is left to default). *)
Inductive response : Type :=
| Render (template : string) (context : Dict.dict ctx_value)
| HttpResponse (content : string) (status : nat)
               (content_type : option string) (headers : Dict.dict string).

Record request : Type := Request {
  method : string;
  FILES : Dict.dict string;
}.

Record world : Type := World {
  frames : list frame;
  session : Dict.dict string;
}.










Section views.

Variable parse_float : string -> option float64.
Variable str_of_float : float64 -> string.
(** [pd.read_csv] on the uploaded file: the table read, or the exception
    raised. *)
Variable read_csv : string -> exn + frame.
(** [result_df.to_csv(buffer, index=False)] *)
Variable to_csv : frame -> string.
(** The figure of the three columns, as the base64 text of its PNG. *)
Variable plot_png : column -> column -> column -> string.
(** [str(e)] for the exceptions that are not a [ValueError]. *)
Variable str_of_exn : exn -> string.


Definition index (request : request) : M world response :=
  mret (Render "adxapp/index.html" []).




End views.

(** ** Running the views *)





Section views_run.

Variable parse_float : string -> option float64.
Variable str_of_float : float64 -> string.
Variable read_csv : string -> exn + frame.
Variable to_csv : frame -> string.
Variable plot_png : column -> column -> column -> string.
Variable str_of_exn : exn -> string.




End views_run.






